(** * Spike-and-slab RBM: a shallow embedding of [spike_slab_rbm_impl.hpp]

    The development follows the member functions of
    [RBM<InitializationRuleType, DataType, SpikeSlabRBM>] one by one:
    [Reset], [FreeEnergy], [Phase], [SampleVisible], [VisibleMean],
    [HiddenMean], [SpikeMean], [SampleSpike] and [SlabMean].

    Conventions of the embedding.
    - [ElemType] is read as the field of real numbers: the arithmetic of the
      source is the exact one, rounding and non-finite values of [double]
      are outside the model.  The one exception is [Binary64.SpikeMean],
      which is [SpikeMean] with the arithmetic of [double].
    - A flat Armadillo buffer is a [list R]; a matrix or cube built on
      auxiliary memory (the [false, false] constructors of the source) is a
      [View]: an offset into the buffer it aliases together with its shape.
      Reads and writes through a view go to the underlying buffer, in
      Armadillo's column-major order.
    - Temporaries of Armadillo expressions are values of type [Mat].
    - The random source ([math::RandNormal], [math::RandBernoulli]) and the
      warning stream ([Log::Warn]) are effects: they are threaded through a
      [World] that also records the calls made, in order. *)

From Stdlib Require Import Reals Lra Lia.
From Stdlib Require Floats.
From stdpp Require Import base list.

#[global] Instance R_inhabited : Inhabited R := populate 0%R.

(** ** Finite sums and counted loops *)

(** [sum_upto n f] is [f 0 + ... + f (n-1)]. *)
Fixpoint sum_upto (n : nat) (f : nat -> R) : R :=
  match n with
  | O => 0%R
  | S k => (sum_upto k f + f k)%R
  end.

(** [for_upto n body s] runs [for (i = 0; i < n; i++) s = body i s]. *)
Definition for_upto {S : Type} (n : nat) (body : nat -> S -> S) (s : S) : S :=
  foldl (fun acc i => body i acc) s (seq 0 n).

(** ** Armadillo values *)

Module Arma.

(** A dense matrix, stored column by column. *)
Record Mat := mkMat { n_rows : nat; n_cols : nat; mem : list R }.

(** [A(r, c)]. *)
Definition at_ (A : Mat) (r c : nat) : R := mem A !!! (r + n_rows A * c).

(** The matrix whose entry [(r, c)] is [f r c]. *)
Definition build (rows cols : nat) (f : nat -> nat -> R) : Mat :=
  mkMat rows cols
        ((fun k => f (k mod rows) (k / rows)) <$> seq 0 (rows * cols)).

(** A buffer read as a column vector. *)
Definition colvec (l : list R) : Mat := mkMat (length l) 1 l.

(** [A.t()]. *)
Definition t (A : Mat) : Mat :=
  build (n_cols A) (n_rows A) (fun i j => at_ A j i).

(** [A * B]. *)
Definition mul (A B : Mat) : Mat :=
  build (n_rows A) (n_cols B)
        (fun i j => sum_upto (n_cols A) (fun k => at_ A i k * at_ B k j)%R).

(** [s * A] and [A * s] for a scalar [s]. *)
Definition scale_l (s : R) (A : Mat) : Mat :=
  mkMat (n_rows A) (n_cols A) ((fun x => s * x)%R <$> mem A).
Definition scale_r (A : Mat) (s : R) : Mat :=
  mkMat (n_rows A) (n_cols A) ((fun x => x * s)%R <$> mem A).

(** [A + B], entry by entry. *)
Definition add (A B : Mat) : Mat :=
  mkMat (n_rows A) (n_cols A) (zip_with Rplus (mem A) (mem B)).

(** [arma::square], [arma::accu], [arma::as_scalar], [arma::norm(_, 2)]. *)
Definition square (A : Mat) : Mat :=
  mkMat (n_rows A) (n_cols A) ((fun x => x * x)%R <$> mem A).
Definition accu (A : Mat) : R := foldr Rplus 0%R (mem A).
Definition as_scalar (A : Mat) : R := at_ A 0 0.
Definition norm2 (l : list R) : R := sqrt (accu (square (colvec l))).

(** [zeros(rows, cols)]. *)
Definition zeros (rows cols : nat) : Mat :=
  mkMat rows cols (replicate (rows * cols) 0%R).

(** [buf.set_size(n, 1)]: the memory is kept when the size is unchanged and
    is fresh otherwise.  Armadillo leaves fresh memory uninitialised; the
    embedding fills it with zeros, and no result below reads it before it
    is written. *)
Definition set_size (n : nat) (buf : list R) : list R :=
  if decide (length buf = n) then buf else replicate n 0%R.

(** [buf.zeros()]: every element of the buffer becomes zero. *)
Definition zeros_inplace (buf : list R) : list R :=
  replicate (length buf) 0%R.

(** A matrix or cube on auxiliary memory: where it starts in the buffer it
    aliases, and its shape. *)
Record View := mkView
  { v_off : nat; v_rows : nat; v_cols : nat; v_slices : nat }.

Definition v_n_elem (v : View) : nat := v_rows v * v_cols v * v_slices v.

(** Does position [i] of the underlying buffer belong to the view? *)
Definition in_view (v : View) (i : nat) : bool :=
  (v_off v <=? i) && (i <? v_off v + v_n_elem v).

(** [v(i)], [v.slice(s)] and [v.col(c)] read through a view. *)
Definition vget (buf : list R) (v : View) (i : nat) : R :=
  buf !!! (v_off v + i).
Definition slice (buf : list R) (v : View) (s : nat) : Mat :=
  mkMat (v_rows v) (v_cols v)
        (take (v_rows v * v_cols v)
              (drop (v_off v + v_rows v * v_cols v * s) buf)).
Definition col (buf : list R) (v : View) (c : nat) : Mat :=
  mkMat (v_rows v) 1 (take (v_rows v) (drop (v_off v + v_rows v * c) buf)).

(** Assignments through a view: [v.slice(s) = A], [v.col(c) = A] and
    [v = A].  They overwrite the aliased memory and leave the rest of the
    buffer alone.  A view built with [strict = false] stops aliasing the
    buffer when it is assigned a value with another number of elements:
    the buffer is then left as it was. *)
Definition set_slice (buf : list R) (v : View) (s : nat) (A : Mat) : list R :=
  list_inserts (v_off v + v_rows v * v_cols v * s) (mem A) buf.
Definition set_col (buf : list R) (v : View) (c : nat) (A : Mat) : list R :=
  list_inserts (v_off v + v_rows v * c) (mem A) buf.
Definition assign (buf : list R) (v : View) (A : Mat) : list R :=
  if decide (length (mem A) = v_n_elem v)
  then list_inserts (v_off v) (mem A) buf
  else buf.

End Arma.

Import Arma.

(** ** The model object *)

(** The members of [RBM] that the spike-and-slab policy uses.  [weight] is a
    member declared in [rbm.hpp]; [Reset] only reads its [n_elem], which is
    the field [weight_n_elem]. *)
Record RBM := mkRBM
  { visibleSize : nat;
    hiddenSize : nat;
    poolSize : nat;
    batchSize : nat;
    slabPenalty : R;
    radius : R;
    initializeRule : list R -> nat -> nat -> list R;
    parameter : list R;
    positiveGradient : list R;
    negativeGradient : list R;
    tempNegativeGradient : list R;
    negativeSamples : list R;
    visibleMean : list R;
    spikeMean : list R;
    spikeSamples : list R;
    slabMean : list R;
    weightCube : View;
    spikeBias : View;
    visiblePenalty : View;
    weight_n_elem : nat;
    reset : bool }.

(** [Reset()], lines 30-61. *)
Definition Reset (m : RBM) : RBM :=
  let shape :=
    visibleSize m * hiddenSize m * poolSize m + visibleSize m + hiddenSize m in
  let parameter0 := set_size shape (parameter m) in
  let positiveGradient0 := set_size shape (positiveGradient m) in
  let negativeGradient0 := set_size shape (negativeGradient m) in
  let tempNegativeGradient0 := set_size shape (tempNegativeGradient m) in
  let negativeSamples0 :=
    set_size (visibleSize m * batchSize m) (negativeSamples m) in
  let visibleMean0 := set_size (visibleSize m) (visibleMean m) in
  let spikeMean0 := set_size (hiddenSize m) (spikeMean m) in
  let spikeSamples0 := set_size (hiddenSize m) (spikeSamples m) in
  let slabMean0 := set_size (poolSize m * hiddenSize m) (slabMean m) in
  let weightCube0 :=
    mkView 0 (visibleSize m) (poolSize m) (hiddenSize m) in
  let spikeBias0 := mkView (0 + weight_n_elem m) (hiddenSize m) 1 1 in
  let visiblePenalty0 :=
    mkView (0 + weight_n_elem m + v_n_elem spikeBias0) 1 1 1 in
  let parameter1 := zeros_inplace parameter0 in
  let positiveGradient1 := zeros_inplace positiveGradient0 in
  let negativeGradient1 := zeros_inplace negativeGradient0 in
  let tempNegativeGradient1 := zeros_inplace tempNegativeGradient0 in
  let parameter2 := initializeRule m parameter1 (length parameter1) 1 in
  {| visibleSize := visibleSize m;
     hiddenSize := hiddenSize m;
     poolSize := poolSize m;
     batchSize := batchSize m;
     slabPenalty := slabPenalty m;
     radius := radius m;
     initializeRule := initializeRule m;
     parameter := parameter2;
     positiveGradient := positiveGradient1;
     negativeGradient := negativeGradient1;
     tempNegativeGradient := tempNegativeGradient1;
     negativeSamples := negativeSamples0;
     visibleMean := visibleMean0;
     spikeMean := spikeMean0;
     spikeSamples := spikeSamples0;
     slabMean := slabMean0;
     weightCube := weightCube0;
     spikeBias := spikeBias0;
     visiblePenalty := visiblePenalty0;
     weight_n_elem := weight_n_elem m;
     reset := true |}.

(** How many of the three parameter views contain position [i]. *)
Definition views_at (m : RBM) (i : nat) : nat :=
  Nat.b2n (in_view (weightCube m) i)
  + Nat.b2n (in_view (spikeBias m) i)
  + Nat.b2n (in_view (visiblePenalty m) i).

(** The shapes [Reset] gives to the three views. *)
Definition views_shaped (m : RBM) : Prop :=
  v_rows (weightCube m) = visibleSize m /\
  v_cols (weightCube m) = poolSize m /\
  v_slices (weightCube m) = hiddenSize m.

(** A store that has never been reset, for a given configuration. *)
Definition blank (V H P : nat) (sp rad : R)
    (init : list R -> nat -> nat -> list R) (wn : nat) : RBM :=
  {| visibleSize := V; hiddenSize := H; poolSize := P; batchSize := 1;
     slabPenalty := sp; radius := rad; initializeRule := init;
     parameter := []; positiveGradient := []; negativeGradient := [];
     tempNegativeGradient := []; negativeSamples := [];
     visibleMean := []; spikeMean := []; spikeSamples := []; slabMean := [];
     weightCube := mkView 0 0 0 0; spikeBias := mkView 0 0 0 0;
     visiblePenalty := mkView 0 0 0 0;
     weight_n_elem := wn; reset := false |}.

(** An initializer that leaves the buffer as it finds it. *)
Definition keep_init (buf : list R) (rows cols : nat) : list R := buf.

Definition set_visibleMean (m : RBM) (x : list R) : RBM :=
  mkRBM (visibleSize m) (hiddenSize m) (poolSize m) (batchSize m)
        (slabPenalty m) (radius m) (initializeRule m) (parameter m)
        (positiveGradient m) (negativeGradient m) (tempNegativeGradient m)
        (negativeSamples m) x (spikeMean m) (spikeSamples m) (slabMean m)
        (weightCube m) (spikeBias m) (visiblePenalty m) (weight_n_elem m)
        (reset m).

Definition set_spikeMean (m : RBM) (x : list R) : RBM :=
  mkRBM (visibleSize m) (hiddenSize m) (poolSize m) (batchSize m)
        (slabPenalty m) (radius m) (initializeRule m) (parameter m)
        (positiveGradient m) (negativeGradient m) (tempNegativeGradient m)
        (negativeSamples m) (visibleMean m) x (spikeSamples m) (slabMean m)
        (weightCube m) (spikeBias m) (visiblePenalty m) (weight_n_elem m)
        (reset m).

Definition set_spikeSamples (m : RBM) (x : list R) : RBM :=
  mkRBM (visibleSize m) (hiddenSize m) (poolSize m) (batchSize m)
        (slabPenalty m) (radius m) (initializeRule m) (parameter m)
        (positiveGradient m) (negativeGradient m) (tempNegativeGradient m)
        (negativeSamples m) (visibleMean m) (spikeMean m) x (slabMean m)
        (weightCube m) (spikeBias m) (visiblePenalty m) (weight_n_elem m)
        (reset m).

Definition set_slabMean (m : RBM) (x : list R) : RBM :=
  mkRBM (visibleSize m) (hiddenSize m) (poolSize m) (batchSize m)
        (slabPenalty m) (radius m) (initializeRule m) (parameter m)
        (positiveGradient m) (negativeGradient m) (tempNegativeGradient m)
        (negativeSamples m) (visibleMean m) (spikeMean m) (spikeSamples m) x
        (weightCube m) (spikeBias m) (visiblePenalty m) (weight_n_elem m)
        (reset m).

(** ** Effects: the random source and the warning stream *)

(** What a call leaves behind, in the order of the calls. *)
Inductive event : Type :=
  | CallVisibleMean
  | CallRandNormal (mean variance : R)
  | CallRandBernoulli (p : R)
  | LogWarn (norm : R).

(** [math::RandNormal] and [math::RandBernoulli] are defined outside this
    file; a generator of type [G] provides them. *)
Class RandomSource (G : Type) : Type :=
  { draw_normal : R -> R -> G -> R * G;
    draw_bernoulli : R -> G -> R * G }.

Record World (G : Type) : Type := mkWorld { gen : G; trace : list event }.
Arguments mkWorld {G} _ _.
Arguments gen {G} _.
Arguments trace {G} _.

Definition emit {G : Type} (e : event) (w : World G) : World G :=
  mkWorld (gen w) (trace w ++ [e]).

Definition RandNormal {G : Type} `{RandomSource G}
    (mean variance : R) (w : World G) : R * World G :=
  let (x, g) := draw_normal mean variance (gen w) in
  (x, mkWorld g (trace w ++ [CallRandNormal mean variance])).

Definition RandBernoulli {G : Type} `{RandomSource G}
    (p : R) (w : World G) : R * World G :=
  let (x, g) := draw_bernoulli p (gen w) in
  (x, mkWorld g (trace w ++ [CallRandBernoulli p])).

(** A generator for tests: a tape of numbers, handed out one per call,
    whatever the parameters of the call; an exhausted tape hands out 0. *)
Definition tape_next (g : list R) : R * list R :=
  match g with
  | [] => (0%R, [])
  | x :: g' => (x, g')
  end.

#[global] Instance tape_source : RandomSource (list R) :=
  {| draw_normal := fun _ _ g => tape_next g;
     draw_bernoulli := fun _ g => tape_next g |}.

(** ** Activation functions *)

(** Modelled from the spec: [LogisticFunction::Fn] lives in
    [logistic_function.hpp], which is not part of this file; the spec calls
    it the logistic sigmoid, a pure function with values in (0,1). *)
Definition LogisticFunction_Fn (x : R) : R := (1 / (1 + exp (- x)))%R.

(** Modelled from the spec: [SoftplusFunction::Fn] lives in
    [softplus_function.hpp], which is not part of this file; the spec gives
    it as log(1+e^x). *)
Definition SoftplusFunction_Fn (x : R) : R := ln (1 + exp x).

(** ** The conditional distributions *)

Section Engine.

Local Open Scope R_scope.

Variable m : RBM.

(** [SpikeMean(visible, spikeMean)], lines 234-244.  The output starts at
    the beginning of its buffer at both call sites. *)
Definition SpikeMean (visible spikeMean_ : list R) : list R :=
  for_upto (hiddenSize m) (fun i spikeMean_ =>
    <[i := LogisticFunction_Fn
             (0.5 * (1.0 / slabPenalty m) *
              as_scalar
                (mul (mul (mul (t (colvec visible))
                               (slice (parameter m) (weightCube m) i))
                          (t (slice (parameter m) (weightCube m) i)))
                     (colvec visible))
              + vget (parameter m) (spikeBias m) i)]> spikeMean_)
    spikeMean_.

(** [SlabMean(visible, spike, slabMean)], lines 268-278.  [out] says where
    the output matrix lies in [slabMean_]. *)
Definition SlabMean (visible spike slabMean_ : list R) (out : View)
    : list R :=
  for_upto (hiddenSize m) (fun i slabMean_ =>
    set_col slabMean_ out i
      (mul (scale_l ((1.0 / slabPenalty m) * (spike !!! i))
                    (t (slice (parameter m) (weightCube m) i)))
           (colvec visible)))
    slabMean_.

(** [VisibleMean(input, output)], lines 189-203; the result is the new
    content of [output]. *)
Definition VisibleMean (input : list R) : list R :=
  let output0 := zeros (visibleSize m) 1 in
  let spike := mkView 0 (hiddenSize m) 1 1 in
  let slab := mkView (0 + hiddenSize m) (poolSize m) (hiddenSize m) 1 in
  let output1 :=
    for_upto (hiddenSize m) (fun i output =>
      add output
          (scale_r (mul (slice (parameter m) (weightCube m) i)
                        (col input slab i))
                   (vget input spike i)))
      output0 in
  mem (scale_l (1.0 / vget (parameter m) (visiblePenalty m) 0) output1).

(** [FreeEnergy(input)], lines 70-88. *)
Definition FreeEnergy (input : list R) : R :=
  let freeEnergy0 :=
    0.5 * as_scalar
            (mul (scale_l (vget (parameter m) (visiblePenalty m) 0)
                          (t (colvec input)))
                 (colvec input)) in
  let freeEnergy1 :=
    freeEnergy0
    - 0.5 * INR (hiddenSize m) * INR (poolSize m)
      * ln ((2.0 * PI) / slabPenalty m) in
  for_upto (hiddenSize m) (fun i freeEnergy =>
    let sum :=
      accu (square (mul (t (colvec input))
                        (slice (parameter m) (weightCube m) i)))
      / (2.0 * slabPenalty m) in
    freeEnergy - SoftplusFunction_Fn (vget (parameter m) (spikeBias m) i - sum))
    freeEnergy1.

Context {G : Type} `{RandomSource G}.

(** [SampleSpike(spikeMean, spike)], lines 253-259. *)
Definition SampleSpike (spikeMean_ spike : list R) (w : World G)
    : list R * World G :=
  for_upto (hiddenSize m) (fun i '(spike, w) =>
    let (x, w') := RandBernoulli (spikeMean_ !!! i) w in
    (<[i := x]> spike, w'))
    (spike, w).

(** One pass of the inner loop of [SampleVisible], lines 164-167. *)
Definition draw_visible (output : list R) (w : World G)
    : list R * World G :=
  for_upto (visibleSize m) (fun i '(output, w) =>
    let (x, w') :=
      RandNormal (visibleMean m !!! i)
                 (1.0 / vget (parameter m) (visiblePenalty m) 0) w in
    (<[i := x]> output, w'))
    (output, w).

(** The retry loop of [SampleVisible], lines 162-170: [todo] iterations are
    left to run and [k] is the loop counter; the counter comes back with
    the output. *)
Fixpoint SampleVisible_loop (todo k : nat) (output : list R) (w : World G)
    : nat * list R * World G :=
  match todo with
  | O => (k, output, w)
  | S todo' =>
      let (output', w') := draw_visible output w in
      if Rlt_dec (norm2 output') (radius m)
      then (k, output', w')
      else SampleVisible_loop todo' (S k) output' w'
  end.

End Engine.

Definition numMaxTrials : nat := 10.

Section Sampler.

Context {G : Type} `{RandomSource G}.

(** [SampleVisible(input, output)], lines 152-180. *)
Definition SampleVisible (m : RBM) (input output : list R) (w : World G)
    : RBM * list R * World G :=
  let w0 := emit CallVisibleMean w in
  let m1 := set_visibleMean m (VisibleMean m input) in
  let output0 := set_size (visibleSize m1) output in
  let '(k, output1, w1) :=
    SampleVisible_loop m1 numMaxTrials 0 output0 w0 in
  if decide (k = numMaxTrials)
  then (m1, output1, emit (LogWarn (norm2 output1)) w1)
  else (m1, output1, w1).

(** [HiddenMean(input, output)], lines 212-225.  The view [spike] starts
    where [output] starts, so reading and writing [spike(i)] is reading and
    writing [output(i)]. *)
Definition HiddenMean (m : RBM) (input output : list R) (w : World G)
    : RBM * list R * World G :=
  let output0 :=
    set_size (hiddenSize m + poolSize m * hiddenSize m) output in
  let slab := mkView (0 + hiddenSize m) (poolSize m) (hiddenSize m) 1 in
  let output1 := SpikeMean m input output0 in
  let (spikeSamples1, w1) :=
    SampleSpike m output1 (spikeSamples m) w in
  let m1 := set_spikeSamples m spikeSamples1 in
  let output2 := SlabMean m1 input (spikeSamples m1) output1 slab in
  (m1, output2, w1).

(** [Phase(input, gradient)], lines 97-120. *)
Definition Phase (m : RBM) (input gradient : list R) (w : World G)
    : RBM * list R * World G :=
  let weightGrad :=
    mkView 0 (visibleSize m) (poolSize m) (hiddenSize m) in
  let spikeBiasGrad :=
    mkView (0 + v_n_elem weightGrad) (hiddenSize m) 1 1 in
  let visiblePenaltyGrad :=
    mkView (0 + v_n_elem weightGrad + v_n_elem spikeBiasGrad) 1 1 1 in
  let m1 := set_spikeMean m (SpikeMean m input (spikeMean m)) in
  let (spikeSamples1, w1) :=
    SampleSpike m1 (spikeMean m1) (spikeSamples m1) w in
  let m2 := set_spikeSamples m1 spikeSamples1 in
  let m3 :=
    set_slabMean m2
      (SlabMean m2 input (spikeSamples m2) (slabMean m2)
                (mkView 0 (poolSize m2) (hiddenSize m2) 1)) in
  let gradient1 :=
    for_upto (hiddenSize m3) (fun i gradient =>
      set_slice gradient weightGrad i
        (scale_r (mul (colvec input)
                      (t (col (slabMean m3)
                              (mkView 0 (poolSize m3) (hiddenSize m3) 1) i)))
                 (spikeMean m3 !!! i)))
      gradient in
  let gradient2 := assign gradient1 spikeBiasGrad (colvec (spikeMean m3)) in
  let gradient3 :=
    assign gradient2 visiblePenaltyGrad
           (mul (scale_l (-0.5) (t (colvec input))) (colvec input)) in
  (m3, gradient3, w1).

End Sampler.

(** ** The quantities the formulas are written with *)

Section Formulas.

Local Open Scope R_scope.

Variable m : RBM.

(** [W[r, p, h]], [b[h]] and [α]: the stored weight tensor, spike bias and
    visible penalty, read in the parameter buffer through their views. *)
Definition W_at (r p h : nat) : R :=
  parameter m !!! (v_off (weightCube m)
                   + visibleSize m * poolSize m * h
                   + (r + visibleSize m * p))%nat.
Definition bias_at (h : nat) : R := parameter m !!! (v_off (spikeBias m) + h)%nat.
Definition alpha : R := parameter m !!! (v_off (visiblePenalty m) + 0)%nat.

(** Entry [p] of [W[:,:,h]ᵀ · v]. *)
Definition Wt_v (v : list R) (h p : nat) : R :=
  sum_upto (visibleSize m) (fun r => W_at r p h * v !!! r).

(** [‖W[:,:,h]ᵀ · v‖²]. *)
Definition sqnorm_Wt_v (v : list R) (h : nat) : R :=
  sum_upto (poolSize m) (fun p => Wt_v v h p * Wt_v v h p).

(** [vᵀ · W[:,:,h] · W[:,:,h]ᵀ · v], with the product [W · Wᵀ] in the
    middle. *)
Definition quad_form (v : list R) (h : nat) : R :=
  sum_upto (visibleSize m) (fun r =>
    sum_upto (visibleSize m) (fun r' =>
      v !!! r * sum_upto (poolSize m) (fun p => W_at r p h * W_at r' p h)
      * v !!! r')).

(** [‖v‖²]. *)
Definition sqnorm (v : list R) : R :=
  sum_upto (length v) (fun i => v !!! i * v !!! i).

(** The spike and the slab of a concatenated hidden vector. *)
Definition spike_of (hidden : list R) (h : nat) : R := hidden !!! h.
Definition slab_of (hidden : list R) (p h : nat) : R :=
  hidden !!! (hiddenSize m + poolSize m * h + p)%nat.

(** The hidden vector with the same spikes and every slab entry scaled. *)
Definition scale_slab (c : R) (hidden : list R) : list R :=
  take (hiddenSize m) hidden ++ ((fun x => c * x) <$> drop (hiddenSize m) hidden).

End Formulas.

(** The calls to the random source that one sampling attempt of
    [SampleVisible] makes. *)
Definition attempt_calls (m : RBM) : list event :=
  (fun i => CallRandNormal (visibleMean m !!! i) (1 / alpha m)%R)
    <$> seq 0 (visibleSize m).

(** The calls to the random source that sampling the spikes from the
    probabilities [p 0], ..., [p (H-1)] makes. *)
Definition spike_calls (m : RBM) (p : nat -> R) : list event :=
  (fun h => CallRandBernoulli (p h)) <$> seq 0 (hiddenSize m).

(** [n] sampling attempts in a row, whatever their outcome. *)
Fixpoint attempts {G : Type} `{RandomSource G}
    (m : RBM) (n : nat) (output : list R) (w : World G)
    : list R * World G :=
  match n with
  | O => (output, w)
  | S n' =>
      let (output', w') := attempts m n' output w in
      draw_visible m output' w'
  end.

(** [n] draws of spikes in a row, draw [i] with probability [p i]. *)
Fixpoint bernoulli_draws {G : Type} `{RandomSource G}
    (p : nat -> R) (n : nat) (g : G) : list R * G :=
  match n with
  | O => ([], g)
  | S n' =>
      let (xs, g') := bernoulli_draws p n' g in
      let (x, g'') := draw_bernoulli (p n') g' in
      (xs ++ [x], g'')
  end.

(** The logistic sigmoid of
    [vᵀ · W[:,:,h] · W[:,:,h]ᵀ · v / (2·slabPenalty) + b[h]]. *)
Definition spike_prob (m : RBM) (v : list R) (h : nat) : R :=
  LogisticFunction_Fn
    (quad_form m v h / (2 * slabPenalty m) + bias_at m h)%R.

(** The sizes [Reset] gives to the scratch members. *)
Definition members_sized (m : RBM) : Prop :=
  length (visibleMean m) = visibleSize m /\
  length (spikeMean m) = hiddenSize m /\
  length (spikeSamples m) = hiddenSize m /\
  length (slabMean m) = poolSize m * hiddenSize m.

(** A store with one visible unit, one hidden unit and one slab factor,
    reset with an initializer that sets W = 1, b = 0 and α = 1. *)
Definition unit_init (buf : list R) (rows cols : nat) : list R :=
  [1%R; 0%R; 1%R].
Definition unit_rbm : RBM := Reset (blank 1 1 1 1%R 1%R unit_init 1).

(** The block that iteration [h] of the loop of [Phase] writes in the
    gradient buffer, given the slab mean [sl] and the spike mean [sm]. *)
Definition weight_grad_block (m : RBM) (input sl sm : list R) (h : nat)
    : list R :=
  mem (scale_r
         (mul (colvec input)
              (t (col sl (mkView 0 (poolSize m) (hiddenSize m) 1) h)))
         (sm !!! h)).

(** The value [Phase] assigns to the visible-penalty gradient. *)
Definition penalty_grad (input : list R) : Mat :=
  mul (scale_l (-0.5) (t (colvec input))) (colvec input).

(** Counting the events of one kind in a trace. *)
Definition is_CallVisibleMean (e : event) : bool :=
  match e with CallVisibleMean => true | _ => false end.
Definition is_LogWarn (e : event) : bool :=
  match e with LogWarn _ => true | _ => false end.
Definition count_events (f : event -> bool) (tr : list event) : nat :=
  length (List.filter f tr).

(** The store of the free-energy example of the spec: V = 2, H = 2, P = 1,
    W[:,:,0] = [1,0], W[:,:,1] = [0,1], b = [0,0], α = 1, slabPenalty = 1. *)
Definition example_init (buf : list R) (rows cols : nat) : list R :=
  [1%R; 0%R; 0%R; 1%R; 0%R; 0%R; 1%R; 0%R].
Definition example_rbm : RBM := Reset (blank 2 2 1 1%R 1%R example_init 4).

(** ** The remaining samplers *)

Section MoreSamplers.

Context {G : Type} `{RandomSource G}.

Variable m : RBM.

(** [SampleSlab(slabMean, slab)], lines 287-298, for two matrices that do
    not share memory: the means are read in [slabMean_] through [mean], the
    samples are written in [slab] through [out]. *)
Definition SampleSlab (slabMean_ : list R) (mean : View)
    (slab : list R) (out : View) (w : World G) : list R * World G :=
  for_upto (hiddenSize m) (fun i '(slab, w) =>
    for_upto (poolSize m) (fun j '(slab, w) =>
      let (x, w') :=
        RandNormal (slabMean_ !!! (v_off mean + (j + v_rows mean * i)))
                   (1.0 / slabPenalty m)%R w in
      (<[v_off out + (j + v_rows out * i) := x]> slab, w'))
      (slab, w))
    (slab, w).

(** [SampleSlab(slab, slab)], as [SampleHidden] calls it: both arguments
    are the same matrix, so every mean is read in the buffer that the
    samples are written to. *)
Definition SampleSlab_inplace (slab : list R) (v : View) (w : World G)
    : list R * World G :=
  for_upto (hiddenSize m) (fun i '(slab, w) =>
    for_upto (poolSize m) (fun j '(slab, w) =>
      let (x, w') :=
        RandNormal (slab !!! (v_off v + (j + v_rows v * i)))
                   (1.0 / slabPenalty m)%R w in
      (<[v_off v + (j + v_rows v * i) := x]> slab, w'))
      (slab, w))
    (slab, w).

(** [SampleSpike(spike, spike)], as [SampleHidden] calls it: both arguments
    are the same vector, at the start of its buffer. *)
Definition SampleSpike_inplace (spike : list R) (w : World G)
    : list R * World G :=
  for_upto (hiddenSize m) (fun i '(spike, w) =>
    let (x, w') := RandBernoulli (spike !!! i) w in
    (<[i := x]> spike, w'))
    (spike, w).

(** [SlabMean(visible, spike, slab)], as [SampleHidden] calls it: [spike]
    and [slab] are two views of the same buffer, so every spike is read in
    the buffer that the columns are written to. *)
Definition SlabMean_shared (visible buf : list R) (spike out : View)
    : list R :=
  for_upto (hiddenSize m) (fun i buf =>
    set_col buf out i
      (mul (scale_l ((1.0 / slabPenalty m) * vget buf spike i)%R
                    (t (slice (parameter m) (weightCube m) i)))
           (colvec visible)))
    buf.

(** [SampleHidden(input, output)], lines 129-143. *)
Definition SampleHidden (input output : list R) (w : World G)
    : list R * World G :=
  let output0 :=
    set_size (hiddenSize m + poolSize m * hiddenSize m) output in
  let spike := mkView 0 (hiddenSize m) 1 1 in
  let slab := mkView (0 + hiddenSize m) (poolSize m) (hiddenSize m) 1 in
  let output1 := SpikeMean m input output0 in
  let (output2, w1) := SampleSpike_inplace output1 w in
  let output3 := SlabMean_shared input output2 spike slab in
  SampleSlab_inplace output3 slab w1.

End MoreSamplers.

(** [n] normal draws in a row, draw [k] with mean [mean k]. *)
Fixpoint normal_draws {G : Type} `{RandomSource G}
    (mean : nat -> R) (variance : R) (n : nat) (g : G) : list R * G :=
  match n with
  | O => ([], g)
  | S n' =>
      let (xs, g') := normal_draws mean variance n' g in
      let (x, g'') := draw_normal (mean n') variance g' in
      (xs ++ [x], g'')
  end.

(** The calls to the random source that sampling the [P·H] slab entries
    makes, entry [k] of the column-major matrix with mean [mean k]. *)
Definition slab_calls (m : RBM) (mean : nat -> R) : list event :=
  (fun k => CallRandNormal (mean k) (1 / slabPenalty m)%R)
    <$> seq 0 (poolSize m * hiddenSize m).

(** The visible vector with every entry negated. *)
Definition negate (v : list R) : list R := Ropp <$> v.

(** Round [j] (counted from 1) of a list of draws made [V] at a time. *)
Definition round (V : nat) (drawn : list R) (j : nat) : list R :=
  take V (drop ((j - 1) * V) drawn).

(** ** [SpikeMean] in binary64 *)

(** [SpikeMean] with [ElemType = double]: the arithmetic is that of IEEE 754
    binary64, round to nearest, ties to even, which is the arithmetic of
    Rocq's primitive floats.  Buffers are lists of floats, expression
    temporaries are matrices of floats, and views are the views of [Arma]. *)
Module Binary64.

Import Floats.

#[global] Instance float_inhabited : Inhabited float := populate 0%float.

Fixpoint sum_upto (n : nat) (f : nat -> float) : float :=
  match n with
  | O => 0%float
  | S k => (sum_upto k f + f k)%float
  end.

Record Mat := mkMat { n_rows : nat; n_cols : nat; mem : list float }.

Definition at_ (A : Mat) (r c : nat) : float := mem A !!! (r + n_rows A * c).

Definition build (rows cols : nat) (f : nat -> nat -> float) : Mat :=
  mkMat rows cols
        ((fun k => f (k mod rows) (k / rows)) <$> seq 0 (rows * cols)).

Definition colvec (l : list float) : Mat := mkMat (length l) 1 l.

Definition t (A : Mat) : Mat :=
  build (n_cols A) (n_rows A) (fun i j => at_ A j i).

Definition mul (A B : Mat) : Mat :=
  build (n_rows A) (n_cols B)
        (fun i j =>
           sum_upto (n_cols A) (fun k => at_ A i k * at_ B k j)%float).

Definition as_scalar (A : Mat) : float := at_ A 0 0.

Definition vget (buf : list float) (v : View) (i : nat) : float :=
  buf !!! (v_off v + i).

Definition slice (buf : list float) (v : View) (s : nat) : Mat :=
  mkMat (v_rows v) (v_cols v)
        (take (v_rows v * v_cols v)
              (drop (v_off v + v_rows v * v_cols v * s) buf)).

(** Modelled from the spec: [LogisticFunction::Fn] lives in
    [logistic_function.hpp], which is not part of this file; the spec calls
    it the logistic sigmoid.  [exp] stands for [std::exp] on [double]. *)
Definition LogisticFunction_Fn (exp : float -> float) (x : float) : float :=
  (1 / (1 + exp (- x)))%float.

(** The argument that [SpikeMean] passes to [LogisticFunction::Fn] for
    hidden unit [i], lines 240-242. *)
Definition SpikeMean_argument
    (slabPenalty : float) (parameter : list float)
    (weightCube spikeBias : View) (visible : list float) (i : nat) : float :=
  (0.5 * (1.0 / slabPenalty) *
   as_scalar
     (mul (mul (mul (t (colvec visible)) (slice parameter weightCube i))
               (t (slice parameter weightCube i)))
          (colvec visible))
   + vget parameter spikeBias i)%float.

(** [SpikeMean(visible, spikeMean)], lines 234-244, on a store with the
    given members. *)
Definition SpikeMean (exp : float -> float)
    (hiddenSize : nat) (slabPenalty : float) (parameter : list float)
    (weightCube spikeBias : View) (visible spikeMean_ : list float)
    : list float :=
  for_upto hiddenSize (fun i spikeMean_ =>
    <[i := LogisticFunction_Fn exp
             (SpikeMean_argument slabPenalty parameter weightCube spikeBias
                                 visible i)]> spikeMean_)
    spikeMean_.

(** Modelled from the spec: [std::exp] belongs to the C++ standard library,
    not to this file.  [exp_at_minus_40_5 e] has the value [e] at -40.5 and
    is not a number anywhere else, so that a run which asks for another
    value does not give a number either. *)
Definition exp_at_minus_40_5 (e : float) (x : float) : float :=
  if (x =? -40.5)%float then e else nan.

(** Is [x] strictly between 0 and 1? *)
Definition in_open_unit_interval (x : float) : bool :=
  ((0 <? x) && (x <? 1))%float.

End Binary64.

(** ** Loops and sums *)

Lemma for_upto_S {S : Type} (n : nat) (body : nat -> S -> S) (s : S) :
  for_upto (Datatypes.S n) body s = body n (for_upto n body s).
Proof. unfold for_upto. rewrite seq_S, foldl_app. reflexivity. Qed.

Section Sums.

Local Open Scope R_scope.

Lemma sum_upto_ext (n : nat) (f g : nat -> R) :
  (forall i, (i < n)%nat -> f i = g i) -> sum_upto n f = sum_upto n g.
Proof.
  induction n as [|n IH]; intros Hfg; simpl; [reflexivity|].
  rewrite IH by (intros i Hi; apply Hfg; lia).
  rewrite Hfg by lia. reflexivity.
Qed.

Lemma sum_upto_scal_l (n : nat) (c : R) (f : nat -> R) :
  sum_upto n (fun i => c * f i) = c * sum_upto n f.
Proof. induction n as [|n IH]; simpl; [lra|]. rewrite IH. lra. Qed.

Lemma sum_upto_scal_r (n : nat) (c : R) (f : nat -> R) :
  sum_upto n (fun i => f i * c) = sum_upto n f * c.
Proof. induction n as [|n IH]; simpl; [lra|]. rewrite IH. lra. Qed.

Lemma sum_upto_plus (n : nat) (f g : nat -> R) :
  sum_upto n (fun i => f i + g i) = sum_upto n f + sum_upto n g.
Proof. induction n as [|n IH]; simpl; [lra|]. rewrite IH. lra. Qed.

Lemma sum_upto_zero (n : nat) : sum_upto n (fun _ => 0) = 0.
Proof. induction n as [|n IH]; simpl; [reflexivity|]. rewrite IH. lra. Qed.

Lemma sum_upto_swap (n k : nat) (f : nat -> nat -> R) :
  sum_upto n (fun i => sum_upto k (fun j => f i j))
  = sum_upto k (fun j => sum_upto n (fun i => f i j)).
Proof.
  induction n as [|n IH]; simpl.
  - symmetry. apply sum_upto_zero.
  - rewrite IH, <- sum_upto_plus. reflexivity.
Qed.

Lemma foldr_Rplus_acc (l : list R) (a : R) :
  foldr Rplus a l = foldr Rplus 0 l + a.
Proof. induction l as [|x l IH]; simpl; [lra|]. rewrite IH. lra. Qed.

Lemma foldr_tabulate (n : nat) (g : nat -> R) :
  foldr Rplus 0 (g <$> seq 0 n) = sum_upto n g.
Proof.
  induction n as [|n IH]; [reflexivity|].
  rewrite seq_S, fmap_app, foldr_app. simpl.
  rewrite foldr_Rplus_acc, IH. lra.
Qed.

End Sums.

(** ** Reading Armadillo values *)

Lemma lookup_total_tabulate (g : nat -> R) (n i : nat) :
  i < n -> (g <$> seq 0 n) !!! i = g i.
Proof.
  intros Hi. apply list_lookup_total_correct.
  rewrite list_lookup_fmap, lookup_seq_lt by exact Hi. reflexivity.
Qed.

Lemma at_build (rows cols : nat) (f : nat -> nat -> R) (r c : nat) :
  r < rows -> c < cols -> at_ (build rows cols f) r c = f r c.
Proof.
  intros Hr Hc. unfold at_, build; simpl.
  rewrite lookup_total_tabulate by nia.
  rewrite (Nat.mul_comm rows c), Nat.Div0.mod_add, Nat.div_add by lia.
  rewrite Nat.mod_small, Nat.div_small by lia. reflexivity.
Qed.

Lemma at_colvec (v : list R) (r : nat) : at_ (colvec v) r 0 = v !!! r.
Proof. unfold at_, colvec; simpl. f_equal. lia. Qed.

Lemma at_t_colvec (v : list R) (k : nat) :
  k < length v -> at_ (t (colvec v)) 0 k = v !!! k.
Proof.
  intros Hk. unfold t. simpl.
  rewrite at_build by (simpl; lia). apply at_colvec.
Qed.

Lemma at_slice (buf : list R) (vw : View) (s r c : nat) :
  r < v_rows vw -> c < v_cols vw ->
  at_ (slice buf vw s) r c
  = buf !!! (v_off vw + v_rows vw * v_cols vw * s + (r + v_rows vw * c)).
Proof.
  intros Hr Hc. unfold at_, slice; simpl.
  rewrite lookup_total_take_lt by nia.
  apply lookup_total_drop.
Qed.

Lemma at_col (buf : list R) (vw : View) (c r : nat) :
  r < v_rows vw ->
  at_ (col buf vw c) r 0 = buf !!! (v_off vw + v_rows vw * c + r).
Proof.
  intros Hr. unfold at_, col; simpl.
  rewrite Nat.mul_0_r, Nat.add_0_r.
  rewrite lookup_total_take_lt by lia.
  apply lookup_total_drop.
Qed.

(** ** [Reset]: sizes and layout *)

Lemma length_set_size (n : nat) (buf : list R) : length (set_size n buf) = n.
Proof.
  unfold set_size. destruct (decide (length buf = n)) as [E|_]; [exact E|].
  apply length_replicate.
Qed.

Lemma zeros_set_size (n : nat) (buf : list R) :
  zeros_inplace (set_size n buf) = replicate n 0%R.
Proof. unfold zeros_inplace. rewrite length_set_size. reflexivity. Qed.

Lemma Reset_views_shaped (m : RBM) : views_shaped (Reset m).
Proof. repeat split. Qed.



(** The offsets of the spike-bias and visible-penalty views follow
    [weight.n_elem]: were [weight] empty, the spike-bias view would start
    at the beginning of the buffer and both views would lie inside the
    weight tensor. *)
Example Reset_views_follow_weight :
  views_at (Reset (blank 2 1 1 1%R 1%R keep_init 0)) 0 = 2 /\
  views_at (Reset (blank 2 1 1 1%R 1%R keep_init 0)) 1 = 2.
Proof. split; reflexivity. Qed.


(** ** Loops that fill a buffer *)

(** A loop that writes one element per iteration. *)
Lemma for_upto_writes (n : nat) (f : nat -> R) (buf : list R) :
  let out := for_upto n (fun i b => <[i := f i]> b) buf in
  length out = length buf /\
  (forall h, h < n -> h < length buf -> out !!! h = f h) /\
  (forall j, n <= j -> out !!! j = buf !!! j).
Proof.
  induction n as [|n IH]; simpl.
  - repeat split; intros; lia.
  - rewrite for_upto_S. destruct IH as (IHlen & IHin & IHout).
    split; [|split].
    + rewrite length_insert. exact IHlen.
    + intros h Hh Hl. destruct (decide (h = n)) as [->|Hne].
      * apply list_lookup_total_insert_eq. lia.
      * rewrite list_lookup_total_insert_ne by lia. apply IHin; lia.
    + intros j Hj. rewrite list_lookup_total_insert_ne by lia.
      apply IHout. lia.
Qed.

(** A loop that writes one block of [len] elements per iteration, block
    [i] at [off + len * i]. *)
Lemma for_upto_blocks (n len off : nat) (blk : nat -> list R) (buf : list R) :
  (forall i, i < n -> length (blk i) = len) ->
  let out :=
    for_upto n (fun i b => list_inserts (off + len * i) (blk i) b) buf in
  length out = length buf /\
  (forall h p, h < n -> p < len -> off + len * h + p < length buf ->
     out !!! (off + len * h + p) = blk h !!! p) /\
  (forall j, j < off \/ off + len * n <= j -> out !!! j = buf !!! j).
Proof.
  induction n as [|n IH]; intros Hlen; simpl.
  - repeat split; intros; lia.
  - rewrite for_upto_S.
    destruct IH as (IHlen & IHin & IHout); [intros; apply Hlen; lia|].
    split; [|split].
    + rewrite length_inserts. exact IHlen.
    + intros h p Hh Hp Hl. destruct (decide (h = n)) as [->|Hne].
      * rewrite list_lookup_total_inserts
          by (rewrite ?Hlen by lia; lia).
        f_equal. lia.
      * rewrite list_lookup_total_inserts_lt by nia. apply IHin; lia.
    + intros j Hj. destruct Hj as [Hj|Hj].
      * rewrite list_lookup_total_inserts_lt by lia. apply IHout. lia.
      * rewrite list_lookup_total_inserts_ge
          by (rewrite Hlen by lia; lia).
        apply IHout. lia.
Qed.

(** ** Entries of Armadillo expressions *)

Lemma mem_at_col0 (A : Mat) (p : nat) : mem A !!! p = at_ A p 0.
Proof. unfold at_. f_equal. lia. Qed.

Lemma at_t (A : Mat) (i j : nat) :
  i < n_cols A -> j < n_rows A -> at_ (t A) i j = at_ A j i.
Proof. intros Hi Hj. unfold t. rewrite at_build by assumption. reflexivity. Qed.

Lemma at_scale_l (s : R) (A : Mat) (r c : nat) :
  r + n_rows A * c < length (mem A) ->
  at_ (scale_l s A) r c = (s * at_ A r c)%R.
Proof.
  intros Hin. unfold at_, scale_l; simpl.
  destruct (lookup_lt_is_Some_2 (mem A) _ Hin) as [x Hx].
  rewrite (list_lookup_total_correct _ _ _ Hx).
  apply list_lookup_total_correct.
  rewrite list_lookup_fmap, Hx. reflexivity.
Qed.

Lemma at_scale_r (A : Mat) (s : R) (r c : nat) :
  r + n_rows A * c < length (mem A) ->
  at_ (scale_r A s) r c = (at_ A r c * s)%R.
Proof.
  intros Hin. unfold at_, scale_r; simpl.
  destruct (lookup_lt_is_Some_2 (mem A) _ Hin) as [x Hx].
  rewrite (list_lookup_total_correct _ _ _ Hx).
  apply list_lookup_total_correct.
  rewrite list_lookup_fmap, Hx. reflexivity.
Qed.

Lemma length_mem_build (rows cols : nat) (f : nat -> nat -> R) :
  length (mem (build rows cols f)) = rows * cols.
Proof. simpl. rewrite length_fmap. apply length_seq. Qed.

(** ** The products with a weight slice *)

Section WeightSlice.

Local Open Scope R_scope.

Variable m : RBM.
Hypothesis Hshape : views_shaped m.

Lemma at_weight_slice (h r p : nat) :
  (r < visibleSize m)%nat -> (p < poolSize m)%nat ->
  at_ (slice (parameter m) (weightCube m) h) r p = W_at m r p h.
Proof.
  destruct Hshape as (Hr & Hc & _). intros Hlt1 Hlt2.
  rewrite at_slice by lia. unfold W_at. rewrite Hr, Hc. reflexivity.
Qed.

Variable v : list R.
Hypothesis Hv : length v = visibleSize m.

(** [visible.t() * weightCube.slice(h)] is the row [W[:,:,h]ᵀ · v]. *)
Lemma at_vt_W (h p : nat) :
  (p < poolSize m)%nat ->
  at_ (mul (t (colvec v)) (slice (parameter m) (weightCube m) h)) 0 p
  = Wt_v m v h p.
Proof.
  destruct Hshape as (Hr & Hc & _). intros Hp.
  unfold mul. rewrite at_build by (simpl; lia).
  simpl. rewrite Hv. apply sum_upto_ext. intros k Hk.
  rewrite at_t_colvec, at_weight_slice by lia. apply Rmult_comm.
Qed.

(** [s * weightCube.slice(h).t() * visible] is [s] times the column
    [W[:,:,h]ᵀ · v]. *)
Lemma at_Wt_v (s : R) (h p : nat) :
  (p < poolSize m)%nat ->
  at_ (mul (scale_l s (t (slice (parameter m) (weightCube m) h)))
           (colvec v)) p 0
  = s * Wt_v m v h p.
Proof.
  destruct Hshape as (Hr & Hc & _). intros Hp.
  unfold mul. rewrite at_build by (simpl; lia).
  cbn [n_cols n_rows scale_l t build slice]. rewrite Hr.
  unfold Wt_v. rewrite <- sum_upto_scal_l.
  apply sum_upto_ext. intros k Hk.
  rewrite at_colvec, at_scale_l, at_t, at_weight_slice; simpl; try lia.
  - lra.
  - rewrite length_fmap, length_seq. nia.
Qed.

End WeightSlice.

Lemma at_mul (A B : Mat) (i j : nat) :
  i < n_rows A -> j < n_cols B ->
  at_ (mul A B) i j
  = sum_upto (n_cols A) (fun k => at_ A i k * at_ B k j)%R.
Proof. intros Hi Hj. unfold mul. rewrite at_build by assumption. reflexivity. Qed.

Section Accumulate.

Local Open Scope R_scope.

Lemma accu_fmap (g : R -> R) (l : list R) :
  foldr Rplus 0 (g <$> l) = sum_upto (length l) (fun i => g (l !!! i)).
Proof.
  induction l as [|x l IH] using rev_ind; [reflexivity|].
  rewrite fmap_app, foldr_app, length_app, Nat.add_1_r. simpl.
  rewrite foldr_Rplus_acc, IH.
  rewrite (sum_upto_ext _ (fun i => g ((l ++ [x]) !!! i))
                          (fun i => g (l !!! i)))
    by (intros i Hi; rewrite lookup_total_app_l by exact Hi; reflexivity).
  rewrite list_lookup_total_middle by reflexivity. lra.
Qed.

Lemma accu_square_row (A : Mat) :
  n_rows A = 1%nat ->
  accu (square A)
  = sum_upto (length (mem A)) (fun p => at_ A 0 p * at_ A 0 p).
Proof.
  intros Hrow. unfold accu, square; simpl. rewrite accu_fmap.
  apply sum_upto_ext. intros p _. unfold at_. rewrite Hrow.
  replace (0 + 1 * p)%nat with p by lia. reflexivity.
Qed.

Lemma for_upto_minus (n : nat) (g : nat -> R) (x : R) :
  for_upto n (fun i acc => acc - g i) x = x - sum_upto n g.
Proof.
  induction n as [|n IH]; [simpl; unfold for_upto; simpl; lra|].
  rewrite for_upto_S, IH. simpl. lra.
Qed.

End Accumulate.

(** ** [SpikeMean], [SlabMean] and [FreeEnergy] *)

Section EngineFacts.

Local Open Scope R_scope.

Variable m : RBM.

Lemma quad_form_sqnorm (v : list R) (h : nat) :
  quad_form m v h = sqnorm_Wt_v m v h.
Proof.
  unfold quad_form, sqnorm_Wt_v, Wt_v.
  set (V := visibleSize m). set (P := poolSize m).
  set (a := fun r p => W_at m r p h).
  change (sum_upto V (fun r => sum_upto V (fun r' =>
            v !!! r * sum_upto P (fun p => a r p * a r' p) * v !!! r'))
          = sum_upto P (fun p => sum_upto V (fun r => a r p * v !!! r)
                                 * sum_upto V (fun r => a r p * v !!! r))).
  transitivity
    (sum_upto V (fun r => sum_upto P (fun p => sum_upto V (fun r' =>
       (a r p * v !!! r) * (a r' p * v !!! r'))))).
  - apply sum_upto_ext. intros r _. rewrite sum_upto_swap.
    apply sum_upto_ext. intros r' _.
    rewrite <- sum_upto_scal_l, <- sum_upto_scal_r.
    apply sum_upto_ext. intros p _. lra.
  - rewrite sum_upto_swap. apply sum_upto_ext. intros p _.
    rewrite <- sum_upto_scal_r. apply sum_upto_ext. intros r _.
    rewrite <- sum_upto_scal_l. reflexivity.
Qed.

Hypothesis Hshape : views_shaped m.
Variable v : list R.
Hypothesis Hv : length v = visibleSize m.

(** The scalar that [SpikeMean] feeds to the logistic function. *)
Lemma code_quad_form (h : nat) :
  as_scalar
    (mul (mul (mul (t (colvec v)) (slice (parameter m) (weightCube m) h))
              (t (slice (parameter m) (weightCube m) h)))
         (colvec v))
  = sqnorm_Wt_v m v h.
Proof.
  pose proof Hshape as (Hr & Hc & _).
  unfold as_scalar. rewrite at_mul by (simpl; lia).
  replace (n_cols (mul (mul (t (colvec v))
                            (slice (parameter m) (weightCube m) h))
                       (t (slice (parameter m) (weightCube m) h))))
    with (visibleSize m) by (simpl; lia).
  rewrite (sum_upto_ext _ _
    (fun k => sum_upto (poolSize m) (fun p =>
       Wt_v m v h p * (W_at m k p h * v !!! k)))).
  - rewrite sum_upto_swap. apply sum_upto_ext. intros p _.
    rewrite sum_upto_scal_l. reflexivity.
  - intros k Hk. rewrite at_colvec, at_mul by (simpl; lia).
    replace (n_cols (mul (t (colvec v))
                         (slice (parameter m) (weightCube m) h)))
      with (poolSize m) by (simpl; lia).
    rewrite <- sum_upto_scal_r. apply sum_upto_ext. intros p Hp.
    rewrite (at_vt_W m Hshape v Hv) by lia.
    rewrite at_t, (at_weight_slice m Hshape) by (simpl; lia). lra.
Qed.

End EngineFacts.

Section EngineTheorems.

Local Open Scope R_scope.

Lemma LogisticFunction_Fn_bounds (x : R) : 0 < LogisticFunction_Fn x < 1.
Proof.
  unfold LogisticFunction_Fn. pose proof (exp_pos (- x)) as He.
  split.
  - apply Rdiv_lt_0_compat; lra.
  - apply (Rmult_lt_reg_r (1 + exp (- x))); [lra|].
    unfold Rdiv. rewrite Rmult_assoc, Rinv_l by lra. lra.
Qed.

Lemma half_inv_mult (s q : R) : 0.5 * (1.0 / s) * q = q / (2 * s).
Proof.
  unfold Rdiv. rewrite Rinv_mult. generalize (/ s). intros x. lra.
Qed.

(** The value [SpikeMean] computes for unit [h], whatever the shapes. *)
Lemma SpikeMean_lookup (m : RBM) (visible out : list R) (h : nat) :
  (h < hiddenSize m)%nat -> (h < length out)%nat ->
  SpikeMean m visible out !!! h
  = LogisticFunction_Fn
      (0.5 * (1.0 / slabPenalty m) *
       as_scalar
         (mul (mul (mul (t (colvec visible))
                        (slice (parameter m) (weightCube m) h))
                   (t (slice (parameter m) (weightCube m) h)))
              (colvec visible))
       + vget (parameter m) (spikeBias m) h).
Proof.
  intros Hh Hl. unfold SpikeMean.
  match goal with
  | |- for_upto _ (fun i b => <[i := @?f i]> b) _ !!! _ = _ =>
      destruct (for_upto_writes (hiddenSize m) f out) as (_ & Hin & _)
  end.
  rewrite Hin by assumption. reflexivity.
Qed.

Lemma length_SpikeMean (m : RBM) (visible out : list R) :
  length (SpikeMean m visible out) = length out.
Proof.
  unfold SpikeMean.
  match goal with
  | |- length (for_upto _ (fun i b => <[i := @?f i]> b) _) = _ =>
      destruct (for_upto_writes (hiddenSize m) f out) as (Hlen & _ & _)
  end.
  exact Hlen.
Qed.

(** The value [SpikeMean] computes for unit [h], as a formula in the stored
    parameters. *)
Lemma SpikeMean_value (m : RBM) (visible out : list R) (h : nat) :
  views_shaped m -> length visible = visibleSize m ->
  (h < hiddenSize m)%nat -> (h < length out)%nat ->
  SpikeMean m visible out !!! h
  = LogisticFunction_Fn
      (quad_form m visible h / (2 * slabPenalty m) + bias_at m h).
Proof.
  intros Hshape Hv Hh Hl. rewrite SpikeMean_lookup by assumption.
  rewrite (code_quad_form m Hshape visible Hv), half_inv_mult.
  rewrite quad_form_sqnorm. reflexivity.
Qed.

(** C9, as the code has it.  With [ElemType] the real numbers, where every
    input is finite, and the logistic function exact, every entry that
    [SpikeMean] writes lies strictly between 0 and 1, for every visible
    input and every weight and bias configuration. *)
Theorem SpikeMean_in_unit_interval
    (m : RBM) (visible out : list R) (h : nat) :
  (h < hiddenSize m)%nat -> (h < length out)%nat ->
  0 < SpikeMean m visible out !!! h < 1.
Proof.
  intros Hh Hl. rewrite SpikeMean_lookup by assumption.
  apply LogisticFunction_Fn_bounds.
Qed.

Section Binary64Run.

Import Floats.

(** C9 as stated fails with [ElemType = double].  On the store with V = H =
    P = 1, weight 1, spike bias 0 and slab penalty 1, all finite, the
    visible input 9 gives the logistic function the argument
    0.5 * (1/1) * (9*1*1*9) + 0 = 40.5.  The binary64 number nearest to
    e^(-40.5) is 0x1.7c432199df55ap-59, about 2.58e-18, less than half the
    distance from 1 to the next number; with it, and with each of its two
    neighbours, 1 + exp(-40.5) is 1 and the entry that [SpikeMean] writes is
    exactly 1, which is not strictly below 1. *)
Lemma SpikeMean_binary64_counterexample :
  let parameter := [1; 0; 1]%float in
  let weightCube := mkView 0 1 1 1 in
  let spikeBias := mkView 1 1 1 1 in
  let visible := [9]%float in
  let run e :=
    Binary64.SpikeMean (Binary64.exp_at_minus_40_5 e) 1 1%float parameter
                       weightCube spikeBias visible [0%float] in
  forallb is_finite (parameter ++ visible) = true /\
  Binary64.SpikeMean_argument 1%float parameter weightCube spikeBias visible 0
  = 40.5%float /\
  run 0x1.7c432199df55ap-59%float = [1%float] /\
  run 0x1.7c432199df559p-59%float = [1%float] /\
  run 0x1.7c432199df55bp-59%float = [1%float] /\
  forallb Binary64.in_open_unit_interval (run 0x1.7c432199df55ap-59%float)
  = false.
Proof. cbv zeta. repeat split; vm_compute; reflexivity. Qed.

End Binary64Run.

Lemma length_slab_column (m : RBM) (s : R) (visible : list R) (h : nat) :
  length (mem (mul (scale_l s (t (slice (parameter m) (weightCube m) h)))
                   (colvec visible)))
  = v_cols (weightCube m).
Proof. unfold mul. rewrite length_mem_build. simpl. lia. Qed.

(** The effect of [SlabMean] on the buffer that holds its output. *)
Lemma SlabMean_blocks (m : RBM) (visible spike buf : list R) (out : View) :
  v_rows out = v_cols (weightCube m) ->
  let res := SlabMean m visible spike buf out in
  length res = length buf /\
  (forall h p, (h < hiddenSize m)%nat -> (p < v_rows out)%nat ->
     (v_off out + v_rows out * h + p < length buf)%nat ->
     res !!! (v_off out + v_rows out * h + p)%nat
     = mem (mul (scale_l ((1.0 / slabPenalty m) * (spike !!! h))
                         (t (slice (parameter m) (weightCube m) h)))
                (colvec visible)) !!! p) /\
  (forall j, (j < v_off out)%nat \/
             (v_off out + v_rows out * hiddenSize m <= j)%nat ->
     res !!! j = buf !!! j).
Proof.
  intros Hrows res. unfold res, SlabMean, set_col.
  apply (for_upto_blocks (hiddenSize m) (v_rows out) (v_off out)
           (fun i => mem (mul (scale_l ((1.0 / slabPenalty m) * (spike !!! i))
                                 (t (slice (parameter m) (weightCube m) i)))
                              (colvec visible)))).
  intros i _. rewrite length_slab_column. symmetry. exact Hrows.
Qed.

(** The entries [SlabMean] writes, as a formula in the stored parameters. *)
Lemma SlabMean_value
    (m : RBM) (visible spike buf : list R) (out : View) (h p : nat) :
  views_shaped m -> length visible = visibleSize m ->
  v_rows out = poolSize m ->
  (h < hiddenSize m)%nat -> (p < poolSize m)%nat ->
  (v_off out + poolSize m * h + p < length buf)%nat ->
  SlabMean m visible spike buf out !!! (v_off out + poolSize m * h + p)%nat
  = spike !!! h / slabPenalty m * Wt_v m visible h p
  /\ (spike !!! h = 0 ->
      SlabMean m visible spike buf out !!! (v_off out + poolSize m * h + p)%nat
      = 0).
Proof.
  intros Hshape Hv Hrows Hh Hp Hin.
  assert (E : SlabMean m visible spike buf out
                !!! (v_off out + poolSize m * h + p)%nat
              = spike !!! h / slabPenalty m * Wt_v m visible h p).
  { pose proof Hshape as (_ & Hc & _).
    destruct (SlabMean_blocks m visible spike buf out) as (_ & Hblk & _);
      [lia|].
    rewrite <- Hrows. rewrite Hblk by lia.
    rewrite mem_at_col0, (at_Wt_v m Hshape visible Hv) by lia.
    unfold Rdiv. generalize (/ slabPenalty m). intros x. lra. }
  split; [exact E|]. intros Hz. rewrite E, Hz. unfold Rdiv. lra.
Qed.

(** The value of [FreeEnergy], as a formula in the stored parameters. *)
Lemma FreeEnergy_value (m : RBM) (visible : list R) :
  views_shaped m -> length visible = visibleSize m ->
  FreeEnergy m visible
  = 0.5 * alpha m * sqnorm visible
    - 0.5 * INR (hiddenSize m) * INR (poolSize m)
      * ln (2 * PI / slabPenalty m)
    - sum_upto (hiddenSize m) (fun h =>
        SoftplusFunction_Fn
          (bias_at m h - sqnorm_Wt_v m visible h / (2 * slabPenalty m))).
Proof.
  intros Hshape Hv. pose proof Hshape as (Hr & Hc & _).
  unfold FreeEnergy. rewrite for_upto_minus. f_equal; [f_equal|].
  - unfold as_scalar. rewrite at_mul by (simpl; lia).
    cbn [n_cols scale_l t build colvec n_rows].
    rewrite Rmult_assoc. f_equal. unfold sqnorm.
    rewrite <- sum_upto_scal_l. apply sum_upto_ext. intros k Hk.
    rewrite at_colvec, at_scale_l, at_t_colvec; simpl; try lia.
    + unfold alpha, vget. lra.
    + rewrite length_fmap, length_seq. lia.
  - f_equal. f_equal. lra.
  - apply sum_upto_ext. intros h Hh. f_equal. unfold bias_at, vget.
    f_equal. f_equal; [|lra].
    rewrite accu_square_row by reflexivity.
    unfold mul at 1. rewrite length_mem_build. cbn [n_rows n_cols t build slice colvec].
    rewrite Hc, Nat.mul_1_l. unfold sqnorm_Wt_v.
    apply sum_upto_ext. intros p Hp.
    rewrite (at_vt_W m Hshape visible Hv) by lia. reflexivity.
Qed.

End EngineTheorems.

(** ** [VisibleMean] *)

Section VisibleMeanFacts.

Local Open Scope R_scope.

Lemma lookup_total_zip_plus (l k : list R) (i : nat) :
  (i < length l)%nat -> (i < length k)%nat ->
  zip_with Rplus l k !!! i = l !!! i + k !!! i.
Proof.
  intros Hl Hk.
  destruct (lookup_lt_is_Some_2 l i Hl) as [x Hx].
  destruct (lookup_lt_is_Some_2 k i Hk) as [y Hy].
  rewrite (list_lookup_total_correct _ _ _ Hx).
  rewrite (list_lookup_total_correct _ _ _ Hy).
  apply list_lookup_total_correct.
  rewrite lookup_zip_with, Hx. simpl. rewrite Hy. reflexivity.
Qed.

(** A loop that adds one vector per iteration to its accumulator. *)
Lemma for_upto_add (n len : nat) (X : nat -> Mat) (Z : Mat) :
  (forall i, (i < n)%nat -> length (mem (X i)) = len) ->
  length (mem Z) = len ->
  let out := for_upto n (fun i acc => add acc (X i)) Z in
  length (mem out) = len /\
  (forall r, (r < len)%nat ->
     mem out !!! r = mem Z !!! r + sum_upto n (fun i => mem (X i) !!! r)).
Proof.
  induction n as [|n IH]; intros HX HZ; cbv zeta.
  - split; [exact HZ|]. intros r _. unfold for_upto; simpl. lra.
  - rewrite for_upto_S.
    destruct IH as (IHlen & IHval); [intros; apply HX; lia|exact HZ|].
    split.
    + unfold add at 1; cbn [mem].
      rewrite length_zip_with, IHlen, HX by lia. lia.
    + intros r Hr. unfold add at 1; cbn [mem].
      rewrite lookup_total_zip_plus.
      * rewrite IHval by exact Hr. cbn [sum_upto]. lra.
      * rewrite IHlen. exact Hr.
      * rewrite HX by lia. exact Hr.
Qed.

Variable m : RBM.
Hypothesis Hshape : views_shaped m.

(** The vector that iteration [h] of [VisibleMean] adds. *)
Lemma visible_term_length (input : list R) (h : nat) :
  length (mem (scale_r
                 (mul (slice (parameter m) (weightCube m) h)
                      (col input
                           (mkView (0 + hiddenSize m) (poolSize m)
                                   (hiddenSize m) 1) h))
                 (vget input (mkView 0 (hiddenSize m) 1 1) h)))
  = visibleSize m.
Proof.
  destruct Hshape as (Hr & _). unfold scale_r, mul; simpl.
  rewrite length_fmap, length_fmap, length_seq. lia.
Qed.

Lemma visible_term_lookup (input : list R) (h r : nat) :
  (r < visibleSize m)%nat ->
  mem (scale_r
         (mul (slice (parameter m) (weightCube m) h)
              (col input
                   (mkView (0 + hiddenSize m) (poolSize m)
                           (hiddenSize m) 1) h))
         (vget input (mkView 0 (hiddenSize m) 1 1) h)) !!! r
  = sum_upto (poolSize m) (fun p => W_at m r p h * slab_of m input p h)
    * spike_of input h.
Proof.
  pose proof Hshape as (Hr & Hc & _). intros Hlt.
  rewrite mem_at_col0, at_scale_r.
  - rewrite at_mul by (simpl; lia). f_equal.
    replace (n_cols (slice (parameter m) (weightCube m) h))
      with (poolSize m) by (simpl; lia).
    apply sum_upto_ext. intros p Hp.
    rewrite (at_weight_slice m Hshape), at_col by (simpl; lia).
    reflexivity.
  - unfold mul. rewrite length_mem_build. simpl. lia.
Qed.

Lemma length_VisibleMean (input : list R) :
  length (VisibleMean m input) = visibleSize m.
Proof.
  unfold VisibleMean, scale_l; simpl. rewrite length_fmap.
  apply (for_upto_add (hiddenSize m) (visibleSize m)).
  - intros i _. apply visible_term_length.
  - simpl. rewrite length_replicate. lia.
Qed.

(** Entry [r] of the visible mean. *)
Lemma VisibleMean_lookup (input : list R) (r : nat) :
  (r < visibleSize m)%nat ->
  VisibleMean m input !!! r
  = 1 / alpha m
    * sum_upto (hiddenSize m) (fun h =>
        sum_upto (poolSize m) (fun p => W_at m r p h * slab_of m input p h)
        * spike_of input h).
Proof.
  intros Hlt. unfold VisibleMean.
  match goal with
  | |- mem (scale_l ?s ?A) !!! _ = _ => set (acc := A)
  end.
  destruct (for_upto_add (hiddenSize m) (visibleSize m)
              (fun i => scale_r
                 (mul (slice (parameter m) (weightCube m) i)
                      (col input
                           (mkView (0 + hiddenSize m) (poolSize m)
                                   (hiddenSize m) 1) i))
                 (vget input (mkView 0 (hiddenSize m) 1 1) i))
              (zeros (visibleSize m) 1)) as (Hlen & Hval).
  { intros i _. apply visible_term_length. }
  { simpl. rewrite length_replicate. lia. }
  fold acc in Hlen, Hval.
  rewrite mem_at_col0, at_scale_l by (rewrite Hlen; lia).
  rewrite <- mem_at_col0, Hval by exact Hlt.
  unfold zeros; simpl.
  rewrite lookup_total_replicate_2 by lia.
  unfold alpha, vget. f_equal; [lra|]. rewrite Rplus_0_l.
  apply sum_upto_ext. intros h Hh. apply visible_term_lookup. exact Hlt.
Qed.

Lemma spike_of_scale_slab (c : R) (hidden : list R) (h : nat) :
  length hidden = (hiddenSize m + poolSize m * hiddenSize m)%nat ->
  (h < hiddenSize m)%nat ->
  spike_of (scale_slab m c hidden) h = spike_of hidden h.
Proof.
  intros Hlen Hh. unfold spike_of, scale_slab.
  rewrite lookup_total_app_l by (rewrite length_take; lia).
  apply lookup_total_take_lt. exact Hh.
Qed.

Lemma slab_of_scale_slab (c : R) (hidden : list R) (p h : nat) :
  length hidden = (hiddenSize m + poolSize m * hiddenSize m)%nat ->
  (h < hiddenSize m)%nat -> (p < poolSize m)%nat ->
  slab_of m (scale_slab m c hidden) p h = c * slab_of m hidden p h.
Proof.
  intros Hlen Hh Hp. unfold slab_of, scale_slab.
  rewrite lookup_total_app_r by (rewrite length_take; lia).
  rewrite length_take, Nat.min_l by lia.
  replace (hiddenSize m + poolSize m * h + p - hiddenSize m)%nat
    with (poolSize m * h + p)%nat by lia.
  assert (Hin : (poolSize m * h + p < length (drop (hiddenSize m) hidden))%nat).
  { rewrite length_drop. nia. }
  destruct (lookup_lt_is_Some_2 _ _ Hin) as [x Hx].
  erewrite list_lookup_total_correct
    by (rewrite list_lookup_fmap, Hx; reflexivity).
  f_equal. rewrite lookup_drop in Hx.
  symmetry. apply list_lookup_total_correct.
  rewrite <- Hx. f_equal. lia.
Qed.

End VisibleMeanFacts.

(** C7.  For a store whose weight view has the shape [Reset] gives it and a
    hidden vector of [H + P·H] entries, spike first and slab after,
    [VisibleMean] computes [(1/α) · Σ_h W[:,:,h] · slab[:,h] · spike[h]],
    and scaling every slab entry by [c] scales every entry of the result
    by [c]. *)
Theorem VisibleMean_linear (m : RBM) (hidden : list R) :
  views_shaped m ->
  length hidden = hiddenSize m + poolSize m * hiddenSize m ->
  length (VisibleMean m hidden) = visibleSize m /\
  (forall r, r < visibleSize m ->
     VisibleMean m hidden !!! r
     = (1 / alpha m
        * sum_upto (hiddenSize m) (fun h =>
            sum_upto (poolSize m) (fun p =>
              W_at m r p h * slab_of m hidden p h)
            * spike_of hidden h))%R) /\
  (forall (c : R) r, r < visibleSize m ->
     VisibleMean m (scale_slab m c hidden) !!! r
     = (c * VisibleMean m hidden !!! r)%R).
Proof.
  intros Hshape Hlen. split; [|split].
  - apply length_VisibleMean. exact Hshape.
  - intros r Hr. apply VisibleMean_lookup; assumption.
  - intros c r Hr. rewrite !VisibleMean_lookup by assumption.
    rewrite (Rmult_comm c), Rmult_assoc. f_equal.
    rewrite Rmult_comm, <- sum_upto_scal_l.
    apply sum_upto_ext. intros h Hh.
    rewrite spike_of_scale_slab by assumption.
    rewrite <- Rmult_assoc. f_equal.
    rewrite <- sum_upto_scal_l. apply sum_upto_ext. intros p Hp.
    rewrite slab_of_scale_slab by assumption. lra.
Qed.

(** ** Assignment through a view *)

Lemma length_assign (buf : list R) (v : View) (A : Mat) :
  length (assign buf v A) = length buf.
Proof.
  unfold assign. destruct (decide _); [apply length_inserts|reflexivity].
Qed.

Lemma assign_lookup (buf : list R) (v : View) (A : Mat) (i : nat) :
  length (mem A) = v_n_elem v -> i < v_n_elem v ->
  v_off v + i < length buf ->
  assign buf v A !!! (v_off v + i) = mem A !!! i.
Proof.
  intros Hlen Hi Hin. unfold assign.
  destruct (decide _) as [_|Hne]; [|contradiction].
  rewrite list_lookup_total_inserts by lia. f_equal. lia.
Qed.

Lemma assign_frame (buf : list R) (v : View) (A : Mat) (j : nat) :
  j < v_off v \/ v_off v + v_n_elem v <= j ->
  assign buf v A !!! j = buf !!! j.
Proof.
  intros Hj. unfold assign. destruct (decide _) as [E|_]; [|reflexivity].
  destruct Hj as [Hj|Hj].
  - apply list_lookup_total_inserts_lt. exact Hj.
  - apply list_lookup_total_inserts_ge. lia.
Qed.

(** ** [SampleSpike] *)

Section SampleSpikeFacts.

Context {G : Type} `{RandomSource G}.

Lemma length_bernoulli_draws (p : nat -> R) (n : nat) (g : G) :
  length (fst (bernoulli_draws p n g)) = n.
Proof.
  induction n as [|n IH]; [reflexivity|]. simpl.
  destruct (bernoulli_draws p n g) as [xs g'].
  destruct (draw_bernoulli (p n) g') as [x g''].
  simpl in *. rewrite length_app, IH. simpl. lia.
Qed.

Lemma bernoulli_draws_ext (p q : nat -> R) (n : nat) (g : G) :
  (forall i, i < n -> p i = q i) ->
  bernoulli_draws p n g = bernoulli_draws q n g.
Proof.
  induction n as [|n IH]; intros Hpq; [reflexivity|]. simpl.
  rewrite IH by (intros i Hi; apply Hpq; lia).
  rewrite Hpq by lia. reflexivity.
Qed.

Lemma spike_calls_ext (m : RBM) (p q : nat -> R) :
  (forall i, i < hiddenSize m -> p i = q i) ->
  spike_calls m p = spike_calls m q.
Proof.
  intros Hpq. unfold spike_calls. apply list_eq. intros i.
  rewrite !list_lookup_fmap.
  destruct (decide (i < hiddenSize m)) as [Hi|Hi].
  - rewrite lookup_seq_lt by exact Hi. simpl. rewrite Hpq by exact Hi.
    reflexivity.
  - rewrite lookup_seq_ge by lia. reflexivity.
Qed.

(** [n] iterations of the loop of [SampleSpike]. *)
Lemma SampleSpike_loop (n : nat) (sm spike : list R) (w : World G) :
  let res :=
    for_upto n (fun i '(spike, w) =>
      let (x, w') := RandBernoulli (sm !!! i) w in (<[i := x]> spike, w'))
      (spike, w) in
  let drawn := bernoulli_draws (fun i => sm !!! i) n (gen w) in
  length (fst res) = length spike /\
  (forall h, h < n -> h < length spike ->
     fst res !!! h = fst drawn !!! h) /\
  (forall j, n <= j -> fst res !!! j = spike !!! j) /\
  gen (snd res) = snd drawn /\
  trace (snd res)
  = trace w ++ ((fun h => CallRandBernoulli (sm !!! h)) <$> seq 0 n).
Proof.
  induction n as [|n IH]; cbv zeta.
  - unfold for_upto; simpl. rewrite app_nil_r.
    repeat split; intros; lia.
  - rewrite for_upto_S. cbv zeta in IH.
    pose proof (length_bernoulli_draws (fun i => sm !!! i) n (gen w)) as Hdl.
    destruct (for_upto n _ (spike, w)) as [sp wn].
    cbn [bernoulli_draws].
    destruct (bernoulli_draws (fun i => sm !!! i) n (gen w)) as [xs g'].
    destruct IH as (IHlen & IHin & IHout & IHgen & IHtr).
    simpl in IHlen, IHin, IHout, IHgen, IHtr, Hdl.
    unfold RandBernoulli. rewrite IHgen.
    destruct (draw_bernoulli (sm !!! n) g') as [x g''].
    cbn [fst snd gen trace].
    split; [|split; [|split; [|split]]].
    + rewrite length_insert. exact IHlen.
    + intros h Hh Hl. destruct (decide (h = n)) as [->|Hne].
      * rewrite list_lookup_total_insert_eq by lia.
        rewrite list_lookup_total_middle by lia. reflexivity.
      * rewrite list_lookup_total_insert_ne by lia.
        rewrite lookup_total_app_l by lia. apply IHin; lia.
    + intros j Hj. rewrite list_lookup_total_insert_ne by lia.
      apply IHout. lia.
    + reflexivity.
    + rewrite IHtr, seq_S, fmap_app, app_assoc. reflexivity.
Qed.

Lemma SampleSpike_spec (m : RBM) (sm spike : list R) (w : World G) :
  let res := SampleSpike m sm spike w in
  let drawn := bernoulli_draws (fun i => sm !!! i) (hiddenSize m) (gen w) in
  length (fst res) = length spike /\
  (forall h, h < hiddenSize m -> h < length spike ->
     fst res !!! h = fst drawn !!! h) /\
  (forall j, hiddenSize m <= j -> fst res !!! j = spike !!! j) /\
  gen (snd res) = snd drawn /\
  trace (snd res) = trace w ++ spike_calls m (fun h => sm !!! h).
Proof. apply SampleSpike_loop. Qed.

End SampleSpikeFacts.

(** ** [Phase] *)

Section PhaseFacts.

Local Open Scope R_scope.

Context {G : Type} `{RandomSource G}.

Variable m : RBM.
Variable input : list R.

(** [Phase], one step at a time. *)
Lemma Phase_steps (gradient : list R) (w : World G) :
  Phase m input gradient w
  = let sm := SpikeMean m input (spikeMean m) in
    let res := SampleSpike m sm (spikeSamples m) w in
    let sl :=
      SlabMean m input (fst res) (slabMean m)
               (mkView 0 (poolSize m) (hiddenSize m) 1) in
    let VPH := (visibleSize m * poolSize m * hiddenSize m)%nat in
    let g1 :=
      for_upto (hiddenSize m) (fun i g =>
        list_inserts (0 + visibleSize m * poolSize m * i)
                     (weight_grad_block m input sl sm i) g) gradient in
    let g2 := assign g1 (mkView (0 + VPH) (hiddenSize m) 1 1) (colvec sm) in
    let g3 :=
      assign g2 (mkView (0 + VPH + hiddenSize m * 1 * 1) 1 1 1)
             (penalty_grad input) in
    (set_slabMean (set_spikeSamples (set_spikeMean m sm) (fst res)) sl,
     g3, snd res).
Proof.
  unfold Phase. cbv zeta.
  cbn [spikeMean spikeSamples slabMean set_spikeMean set_spikeSamples
       set_slabMean hiddenSize poolSize visibleSize].
  change (SampleSpike (set_spikeMean m (SpikeMean m input (spikeMean m))))
    with (SampleSpike m).
  destruct (SampleSpike m (SpikeMean m input (spikeMean m))
              (spikeSamples m) w) as [ss w1].
  reflexivity.
Qed.

Lemma length_weight_grad_block (sl sm : list R) (h : nat) :
  length (weight_grad_block m input sl sm h) = (length input * poolSize m)%nat.
Proof.
  unfold weight_grad_block, scale_r, mul; simpl.
  rewrite length_fmap, length_fmap, length_seq. reflexivity.
Qed.

Lemma weight_grad_block_lookup (sl sm : list R) (h r p : nat) :
  (r < length input)%nat -> (p < poolSize m)%nat ->
  weight_grad_block m input sl sm h !!! (r + length input * p)%nat
  = input !!! r * sl !!! (poolSize m * h + p)%nat * sm !!! h.
Proof.
  intros Hr Hp. unfold weight_grad_block.
  change (mem ?A !!! (r + length input * p)%nat)
    with (at_ A r p).
  rewrite at_scale_r.
  - rewrite at_mul by (simpl; lia). f_equal.
    cbn [n_cols colvec sum_upto].
    rewrite at_colvec, at_t, at_col by (simpl; lia). simpl. lra.
  - unfold mul. rewrite length_mem_build. simpl. nia.
Qed.

Lemma penalty_grad_value :
  length (mem (penalty_grad input)) = 1%nat /\
  mem (penalty_grad input) !!! 0%nat = -0.5 * sqnorm input.
Proof.
  unfold penalty_grad. split.
  - unfold mul. rewrite length_mem_build. reflexivity.
  - rewrite mem_at_col0, at_mul by (simpl; lia).
    cbn [n_cols scale_l t build colvec n_rows]. unfold sqnorm.
    rewrite <- sum_upto_scal_l. apply sum_upto_ext. intros k Hk.
    rewrite at_colvec, at_scale_l, at_t_colvec; simpl; try lia.
    + lra.
    + rewrite length_fmap, length_seq. lia.
Qed.

End PhaseFacts.

Lemma cell_index_lt (V P r p : nat) : r < V -> p < P -> r + V * p < V * P.
Proof. intros Hr Hp. nia. Qed.

Lemma block_index_lt (len n h i : nat) :
  h < n -> i < len -> len * h + i < len * n.
Proof. intros Hh Hi. nia. Qed.

Lemma Reset_members_sized (m : RBM) : members_sized (Reset m).
Proof.
  unfold members_sized, Reset; simpl. rewrite !length_set_size.
  repeat split; reflexivity.
Qed.

Section PhaseTheorems.

Context {G : Type} `{RandomSource G}.

(** The loop of [Phase] over the weight gradient. *)
Lemma Phase_weight_loop (m : RBM) (input sl sm gradient : list R) :
  length input = visibleSize m ->
  let g1 :=
    for_upto (hiddenSize m) (fun i g =>
      list_inserts (0 + visibleSize m * poolSize m * i)
                   (weight_grad_block m input sl sm i) g) gradient in
  length g1 = length gradient /\
  (forall h r p, h < hiddenSize m -> r < visibleSize m -> p < poolSize m ->
     visibleSize m * poolSize m * h + (r + visibleSize m * p)
       < length gradient ->
     g1 !!! (visibleSize m * poolSize m * h + (r + visibleSize m * p))
     = (input !!! r * sl !!! (poolSize m * h + p)%nat * sm !!! h)%R) /\
  (forall j, visibleSize m * poolSize m * hiddenSize m <= j ->
     g1 !!! j = gradient !!! j).
Proof.
  intros Hv g1.
  destruct (for_upto_blocks (hiddenSize m) (visibleSize m * poolSize m) 0
              (weight_grad_block m input sl sm) gradient)
    as (Hlen & Hin & Hout).
  { intros i _. rewrite length_weight_grad_block, Hv. reflexivity. }
  fold g1 in Hlen, Hin, Hout.
  split; [exact Hlen|split].
  - intros h r p Hh Hr Hp Hl.
    change (visibleSize m * poolSize m * h + (r + visibleSize m * p))
      with (0 + visibleSize m * poolSize m * h + (r + visibleSize m * p)).
    rewrite Hin by (simpl; auto using cell_index_lt).
    rewrite <- Hv. apply weight_grad_block_lookup; lia.
  - intros j Hj. apply Hout. right. simpl. lia.
Qed.

(** C3.  For a store laid out and sized as [Reset] leaves it, a visible
    vector of [V] entries and a gradient buffer of at least [V·P·H + H + 1]
    elements, [Phase] leaves in the members the spike mean, a spike sample
    drawn from it and the slab mean conditioned on that sample, and writes
    in the gradient buffer: in weight slice [h] the outer product of the
    visible vector and column [h] of the slab mean, scaled by the spike
    mean of [h]; after the weight tensor the spike mean; and after it
    [−0.5·visibleᵀ·visible]. *)
Theorem Phase_gradient (m : RBM) (input gradient : list R) (w : World G) :
  views_shaped m -> members_sized m ->
  length input = visibleSize m ->
  visibleSize m * poolSize m * hiddenSize m + hiddenSize m + 1
    <= length gradient ->
  let '(m', g, w') := Phase m input gradient w in
  (forall h, h < hiddenSize m -> spikeMean m' !!! h = spike_prob m input h) /\
  (forall h, h < hiddenSize m ->
     spikeSamples m' !!! h
     = fst (bernoulli_draws (spike_prob m input) (hiddenSize m) (gen w))
         !!! h) /\
  (forall h p, h < hiddenSize m -> p < poolSize m ->
     slabMean m' !!! (poolSize m * h + p)
     = (spikeSamples m' !!! h / slabPenalty m * Wt_v m input h p)%R) /\
  (forall h r p, h < hiddenSize m -> r < visibleSize m -> p < poolSize m ->
     g !!! (visibleSize m * poolSize m * h + (r + visibleSize m * p))
     = (input !!! r * slabMean m' !!! (poolSize m * h + p)%nat
        * spikeMean m' !!! h)%R) /\
  (forall h, h < hiddenSize m ->
     g !!! (visibleSize m * poolSize m * hiddenSize m + h)
     = spikeMean m' !!! h) /\
  g !!! (visibleSize m * poolSize m * hiddenSize m + hiddenSize m)
  = (-0.5 * sqnorm input)%R.
Proof.
  intros Hshape (_ & Hsm_len & Hss_len & Hsl_len) Hv Hg.
  rewrite Phase_steps. cbv zeta.
  set (sm := SpikeMean m input (spikeMean m)).
  set (res := SampleSpike m sm (spikeSamples m) w).
  set (sl := SlabMean m input (fst res) (slabMean m)
               (mkView 0 (poolSize m) (hiddenSize m) 1)).
  set (VPH := visibleSize m * poolSize m * hiddenSize m) in *.
  cbn [spikeMean spikeSamples slabMean set_spikeMean set_spikeSamples
       set_slabMean].
  assert (Hsm_len' : length sm = hiddenSize m).
  { unfold sm. rewrite length_SpikeMean. exact Hsm_len. }
  assert (Hsm : forall h, h < hiddenSize m -> sm !!! h = spike_prob m input h).
  { intros h Hh. apply SpikeMean_value; try assumption. lia. }
  destruct (SampleSpike_spec m sm (spikeSamples m) w)
    as (_ & Hss & _ & _ & _). fold res in Hss.
  destruct (Phase_weight_loop m input sl sm gradient Hv)
    as (Hg1_len & Hg1_in & Hg1_out).
  set (g1 := for_upto (hiddenSize m) _ gradient) in *.
  set (vb := mkView (0 + VPH) (hiddenSize m) 1 1).
  set (vp := mkView (0 + VPH + hiddenSize m * 1 * 1) 1 1 1).
  destruct (penalty_grad_value input) as (Hpg_len & Hpg).
  split; [exact Hsm|]. split; [|split; [|split; [|split]]].
  - intros h Hh. rewrite Hss by lia.
    rewrite (bernoulli_draws_ext (fun i => sm !!! i) (spike_prob m input))
      by exact Hsm.
    reflexivity.
  - intros h p Hh Hp.
    apply (SlabMean_value m input (fst res) (slabMean m)
             (mkView 0 (poolSize m) (hiddenSize m) 1) h p);
      try assumption; try reflexivity.
    simpl. rewrite Hsl_len. nia.
  - intros h r p Hh Hr Hp.
    assert (Hlt : visibleSize m * poolSize m * h + (r + visibleSize m * p)
                  < VPH)
      by (apply block_index_lt; [|apply cell_index_lt]; assumption).
    rewrite !assign_frame by (left; simpl; lia).
    apply Hg1_in; try assumption. lia.
  - intros h Hh.
    rewrite assign_frame by (left; simpl; lia).
    change (VPH + h) with (v_off vb + h).
    rewrite assign_lookup;
      [reflexivity | | |]; unfold v_n_elem; simpl; lia.
  - change (VPH + hiddenSize m) with (0 + VPH + hiddenSize m).
    replace (0 + VPH + hiddenSize m) with (v_off vp + 0) by (simpl; lia).
    rewrite assign_lookup; [exact Hpg | | |].
    + rewrite Hpg_len. reflexivity.
    + unfold v_n_elem; simpl; lia.
    + rewrite length_assign. simpl. lia.
Qed.

(** C10.  For a visible vector of [V] entries, [Phase] keeps the length of
    the gradient buffer and every element from position [V·P·H + H + 1]
    on; the gradient buffers that [Reset] allocates have [V·P·H + V + H]
    elements, that is [V − 1] elements past that position. *)
Theorem Phase_frame (m : RBM) (input gradient : list R) (w : World G) :
  length input = visibleSize m ->
  let '(_, g, _) := Phase m input gradient w in
  let written :=
    visibleSize m * poolSize m * hiddenSize m + hiddenSize m + 1 in
  length g = length gradient /\
  (forall j, written <= j -> g !!! j = gradient !!! j) /\
  length (positiveGradient (Reset m)) - written = visibleSize m - 1 /\
  length (negativeGradient (Reset m)) - written = visibleSize m - 1 /\
  length (tempNegativeGradient (Reset m)) - written = visibleSize m - 1.
Proof.
  intros Hv. rewrite Phase_steps. cbv zeta.
  set (sm := SpikeMean m input (spikeMean m)).
  set (res := SampleSpike m sm (spikeSamples m) w).
  set (sl := SlabMean m input (fst res) (slabMean m)
               (mkView 0 (poolSize m) (hiddenSize m) 1)).
  set (VPH := visibleSize m * poolSize m * hiddenSize m) in *.
  destruct (Phase_weight_loop m input sl sm gradient Hv)
    as (Hg1_len & _ & Hg1_out).
  split; [|split].
  - rewrite !length_assign. exact Hg1_len.
  - intros j Hj.
    rewrite !assign_frame by (right; unfold v_n_elem; simpl; lia).
    apply Hg1_out. fold VPH. lia.
  - unfold Reset; simpl. rewrite !zeros_set_size, !length_replicate.
    fold VPH. nia.
Qed.

End PhaseTheorems.

(** With V = 2, H = 1, P = 1 the gradient buffer has five elements and
    [Phase] leaves the fifth as it finds it. *)
Lemma Phase_frame_witness :
  let m := Reset (blank 2 1 1 1%R 1%R keep_init 2) in
  let input := [1%R; 1%R] in
  let gradient := [7%R; 7%R; 7%R; 7%R; 7%R] in
  let w := mkWorld ([] : list R) [] in
  length input = visibleSize m /\
  snd (fst (Phase m input gradient w)) !!! 4 = 7%R.
Proof.
  intros m input gradient w. split; [reflexivity|].
  pose proof (Phase_frame m input gradient w eq_refl) as F.
  destruct (Phase m input gradient w) as [[m' g] w'].
  destruct F as (_ & Hframe & _).
  simpl. rewrite Hframe by (simpl; lia). reflexivity.
Defined.

(** ** [HiddenMean] *)

Section HiddenMeanFacts.

Context {G : Type} `{RandomSource G}.

(** [HiddenMean], one step at a time. *)
Lemma HiddenMean_steps (m : RBM) (input output : list R) (w : World G) :
  HiddenMean m input output w
  = let output0 :=
      set_size (hiddenSize m + poolSize m * hiddenSize m) output in
    let output1 := SpikeMean m input output0 in
    let res := SampleSpike m output1 (spikeSamples m) w in
    let output2 :=
      SlabMean m input (fst res) output1
               (mkView (0 + hiddenSize m) (poolSize m) (hiddenSize m) 1) in
    (set_spikeSamples m (fst res), output2, snd res).
Proof.
  unfold HiddenMean. cbv zeta.
  destruct (SampleSpike m _ (spikeSamples m) w) as [ss w1].
  reflexivity.
Qed.

(** What [HiddenMean] leaves in its output and in the world. *)
Lemma HiddenMean_spec (m : RBM) (input output : list R) (w : World G) :
  views_shaped m -> members_sized m ->
  length input = visibleSize m ->
  let '(m', out, w') := HiddenMean m input output w in
  length out = hiddenSize m + poolSize m * hiddenSize m /\
  (forall h, h < hiddenSize m -> out !!! h = spike_prob m input h) /\
  (forall h, h < hiddenSize m ->
     spikeSamples m' !!! h
     = fst (bernoulli_draws (spike_prob m input) (hiddenSize m) (gen w))
         !!! h) /\
  (forall h p, h < hiddenSize m -> p < poolSize m ->
     out !!! (hiddenSize m + poolSize m * h + p)
     = (spikeSamples m' !!! h / slabPenalty m * Wt_v m input h p)%R) /\
  trace w' = trace w ++ spike_calls m (spike_prob m input).
Proof.
  intros Hshape (_ & _ & Hss_len & _) Hv.
  rewrite HiddenMean_steps. cbv zeta.
  set (output0 := set_size (hiddenSize m + poolSize m * hiddenSize m) output).
  set (output1 := SpikeMean m input output0).
  set (res := SampleSpike m output1 (spikeSamples m) w).
  set (slab := mkView (0 + hiddenSize m) (poolSize m) (hiddenSize m) 1).
  cbn [spikeSamples set_spikeSamples].
  assert (Hlen0 : length output0 = hiddenSize m + poolSize m * hiddenSize m)
    by apply length_set_size.
  assert (Hlen1 : length output1 = hiddenSize m + poolSize m * hiddenSize m).
  { unfold output1. rewrite length_SpikeMean. exact Hlen0. }
  assert (Hsm : forall h, h < hiddenSize m ->
                  output1 !!! h = spike_prob m input h).
  { intros h Hh. apply SpikeMean_value; try assumption. lia. }
  destruct (SampleSpike_spec m output1 (spikeSamples m) w)
    as (_ & Hss & _ & _ & Htr). fold res in Hss, Htr.
  destruct (SlabMean_blocks m input (fst res) output1 slab)
    as (Hlen2 & _ & Hout).
  { destruct Hshape as (_ & Hc & _). simpl. lia. }
  split; [|split; [|split; [|split]]].
  - rewrite Hlen2. exact Hlen1.
  - intros h Hh. rewrite Hout by (left; simpl; lia). apply Hsm. exact Hh.
  - intros h Hh. rewrite Hss by lia.
    rewrite (bernoulli_draws_ext (fun i => output1 !!! i) (spike_prob m input))
      by exact Hsm.
    reflexivity.
  - intros h p Hh Hp.
    change (hiddenSize m + poolSize m * h + p)
      with (v_off slab + poolSize m * h + p).
    apply (SlabMean_value m input (fst res) output1 slab h p);
      try assumption; try reflexivity.
    simpl. rewrite Hlen1.
    pose proof (block_index_lt (poolSize m) (hiddenSize m) h p Hh Hp). lia.
  - rewrite Htr. f_equal. apply spike_calls_ext. exact Hsm.
Qed.

End HiddenMeanFacts.

(** ** The one-unit store *)

Section UnitStore.

Local Open Scope R_scope.

Lemma unit_rbm_shaped : views_shaped unit_rbm /\ members_sized unit_rbm.
Proof. split; [apply Reset_views_shaped|apply Reset_members_sized]. Qed.

Lemma unit_rbm_Wt_v : Wt_v unit_rbm [1] 0 0 = 1.
Proof.
  unfold Wt_v, W_at, unit_rbm. simpl. unfold unit_init. simpl. lra.
Qed.

Lemma unit_rbm_slabPenalty : slabPenalty unit_rbm = 1.
Proof. reflexivity. Qed.

End UnitStore.

Section HiddenMeanTheorem.

Local Open Scope R_scope.

(** The slab entry that [HiddenMean] writes for the one-unit store, when
    the random source hands out [x] as the spike. *)
Lemma unit_rbm_hidden_slab (x : R) (output : list R) :
  snd (fst (HiddenMean unit_rbm [1] output (mkWorld [x] []))) !!! 1%nat = x.
Proof.
  destruct unit_rbm_shaped as (Hshape & Hsized).
  pose proof (HiddenMean_spec unit_rbm [1] output (mkWorld [x] [])
                Hshape Hsized eq_refl) as S.
  destruct (HiddenMean unit_rbm [1] output (mkWorld [x] []))
    as [[m' out] w'].
  destruct S as (_ & _ & Hss & Hslab & _).
  specialize (Hss 0%nat ltac:(simpl; lia)).
  specialize (Hslab 0%nat 0%nat ltac:(simpl; lia) ltac:(simpl; lia)).
  cbn [fst snd]. change (out !!! 1%nat = x).
  change (hiddenSize unit_rbm + poolSize unit_rbm * 0 + 0)%nat
    with 1%nat in Hslab.
  rewrite Hslab, Hss, unit_rbm_Wt_v, unit_rbm_slabPenalty.
  change (fst (bernoulli_draws (spike_prob unit_rbm [1])
                 (hiddenSize unit_rbm) (gen (mkWorld [x] []))) !!! 0%nat)
    with x.
  lra.
Qed.

(** C8.  For a store laid out and sized as [Reset] leaves it and a visible
    vector of [V] entries, the output of [HiddenMean] is the spike mean
    followed by the slab mean conditioned on the spikes that the random
    source draws with the spike means as probabilities.  The slab part
    depends on what the random source hands out: for the one-unit store
    two sources give two different slab parts, neither of them the slab
    mean conditioned on the spike mean. *)
Theorem HiddenMean_sampled_spike :
  (forall (G : Type) (RS : RandomSource G)
          (m : RBM) (input output : list R) (w : World G),
     views_shaped m -> members_sized m ->
     length input = visibleSize m ->
     let '(m', out, w') := HiddenMean m input output w in
     length out = (hiddenSize m + poolSize m * hiddenSize m)%nat /\
     (forall h, (h < hiddenSize m)%nat -> out !!! h = spike_prob m input h) /\
     (forall h, (h < hiddenSize m)%nat ->
        spikeSamples m' !!! h
        = fst (bernoulli_draws (spike_prob m input) (hiddenSize m) (gen w))
            !!! h) /\
     (forall h p, (h < hiddenSize m)%nat -> (p < poolSize m)%nat ->
        out !!! (hiddenSize m + poolSize m * h + p)%nat
        = spikeSamples m' !!! h / slabPenalty m * Wt_v m input h p) /\
     trace w' = trace w ++ spike_calls m (spike_prob m input)) /\
  (let out1 := snd (fst (HiddenMean unit_rbm [1] [] (mkWorld [1] []))) in
   let out0 := snd (fst (HiddenMean unit_rbm [1] [] (mkWorld [0] []))) in
   let on_mean :=
     spike_prob unit_rbm [1] 0 / slabPenalty unit_rbm
     * Wt_v unit_rbm [1] 0 0 in
   out1 !!! 1%nat <> out0 !!! 1%nat /\
   out1 !!! 1%nat <> on_mean /\
   out0 !!! 1%nat <> on_mean).
Proof.
  split.
  - intros G RS m input output w. apply HiddenMean_spec.
  - cbv zeta. rewrite !unit_rbm_hidden_slab.
    rewrite unit_rbm_Wt_v, unit_rbm_slabPenalty.
    pose proof (LogisticFunction_Fn_bounds
                  (quad_form unit_rbm [1] 0 / (2 * slabPenalty unit_rbm)
                   + bias_at unit_rbm 0)) as B.
    fold (spike_prob unit_rbm [1] 0) in B.
    repeat split; lra.
Qed.

End HiddenMeanTheorem.

(** The one-unit store and a source that hands out the spike 1: the output
    of [HiddenMean] has two entries. *)
Lemma HiddenMean_sampled_spike_witness :
  views_shaped unit_rbm /\ members_sized unit_rbm /\
  length [1%R] = visibleSize unit_rbm /\
  length (snd (fst (HiddenMean unit_rbm [1%R] [] (mkWorld [1%R] [])))) = 2.
Proof.
  destruct unit_rbm_shaped as (Hshape & Hsized).
  split; [exact Hshape|]. split; [exact Hsized|]. split; [reflexivity|].
  pose proof (proj1 HiddenMean_sampled_spike (list R) tape_source unit_rbm
                [1%R] [] (mkWorld [1%R] []) Hshape Hsized eq_refl) as S.
  destruct (HiddenMean unit_rbm [1%R] [] (mkWorld [1%R] [])) as [[m' out] w'].
  destruct S as (Hlen & _). exact Hlen.
Defined.

(** ** [SampleVisible] *)

Section SampleVisibleFacts.

Context {G : Type} `{RandomSource G}.

Lemma count_events_app (f : event -> bool) (tr1 tr2 : list event) :
  count_events f (tr1 ++ tr2) = count_events f tr1 + count_events f tr2.
Proof. unfold count_events. rewrite List.filter_app. apply length_app. Qed.

(** [n] iterations of the inner loop of [SampleVisible]. *)
Lemma draw_visible_loop (m : RBM) (n : nat) (output : list R) (w : World G) :
  let res :=
    for_upto n (fun i '(output, w) =>
      let (x, w') :=
        RandNormal (visibleMean m !!! i)
                   (1.0 / vget (parameter m) (visiblePenalty m) 0)%R w in
      (<[i := x]> output, w'))
      (output, w) in
  length (fst res) = length output /\
  trace (snd res)
  = trace w ++ ((fun i => CallRandNormal (visibleMean m !!! i)
                                         (1 / alpha m)%R) <$> seq 0 n).
Proof.
  induction n as [|n IH]; cbv zeta.
  - unfold for_upto; simpl. rewrite app_nil_r. split; reflexivity.
  - rewrite for_upto_S. cbv zeta in IH.
    destruct (for_upto n _ (output, w)) as [o wn].
    destruct IH as (IHlen & IHtr). simpl in IHlen, IHtr.
    unfold RandNormal.
    destruct (draw_normal _ _ (gen wn)) as [x g'].
    cbn [fst snd trace]. split.
    + rewrite length_insert. exact IHlen.
    + rewrite IHtr, seq_S, fmap_app, app_assoc. f_equal. simpl.
      f_equal. f_equal. unfold alpha, vget. lra.
Qed.

Lemma draw_visible_spec (m : RBM) (output : list R) (w : World G) :
  length (fst (draw_visible m output w)) = length output /\
  trace (snd (draw_visible m output w)) = trace w ++ attempt_calls m.
Proof. apply draw_visible_loop. Qed.

Lemma attempts_front (m : RBM) (n : nat) (output : list R) (w : World G) :
  attempts m (S n) output w
  = attempts m n (fst (draw_visible m output w))
             (snd (draw_visible m output w)).
Proof.
  induction n as [|n IH].
  - simpl. destruct (draw_visible m output w). reflexivity.
  - change (attempts m (S (S n)) output w)
      with (let (o, w') := attempts m (S n) output w in draw_visible m o w').
    rewrite IH. reflexivity.
Qed.

Lemma attempts_trace (m : RBM) (n : nat) (output : list R) (w : World G) :
  trace (snd (attempts m n output w))
  = trace w ++ concat (replicate n (attempt_calls m)).
Proof.
  revert output w. induction n as [|n IH]; intros output w.
  - simpl. rewrite app_nil_r. reflexivity.
  - rewrite attempts_front, IH.
    destruct (draw_visible_spec m output w) as (_ & Htr).
    rewrite Htr, <- app_assoc. reflexivity.
Qed.

Lemma count_attempt_calls (m : RBM) (n : nat) :
  count_events is_CallVisibleMean (concat (replicate n (attempt_calls m))) = 0
  /\ count_events is_LogWarn (concat (replicate n (attempt_calls m))) = 0.
Proof.
  assert (Hone : forall f,
            (forall a b, f (CallRandNormal a b) = false) ->
            count_events f (attempt_calls m) = 0).
  { intros f Hf. unfold attempt_calls.
    induction (seq 0 (visibleSize m)) as [|i l IH]; [reflexivity|].
    unfold count_events in *. simpl. rewrite Hf. exact IH. }
  induction n as [|n (IH1 & IH2)]; [split; reflexivity|].
  simpl. rewrite !count_events_app, IH1, IH2, !Hone by reflexivity.
  split; reflexivity.
Qed.

(** The retry loop: how many attempts it makes and where it stops. *)
Lemma SampleVisible_loop_spec
    (m : RBM) (todo k : nat) (output : list R) (w : World G) :
  0 < todo ->
  let '(k', o', w') := SampleVisible_loop m todo k output w in
  exists n,
    1 <= n <= todo /\
    attempts m n output w = (o', w') /\
    (forall j, 1 <= j < n ->
       ~ (norm2 (fst (attempts m j output w)) < radius m)%R) /\
    (((norm2 o' < radius m)%R /\ k' = k + (n - 1)) \/
     (~ (norm2 o' < radius m)%R /\ n = todo /\ k' = k + todo)).
Proof.
  revert k output w. induction todo as [|t IH]; intros k output w Hpos;
    [lia|].
  cbn [SampleVisible_loop].
  destruct (draw_visible m output w) as [o1 w1] eqn:Ed.
  assert (H1 : attempts m 1 output w = (o1, w1))
    by (cbn [attempts]; exact Ed).
  destruct (Rlt_dec (norm2 o1) (radius m)) as [Hin|Hout].
  - exists 1. split; [lia|]. split; [exact H1|]. split; [intros j Hj; lia|].
    left. split; [exact Hin|lia].
  - destruct t as [|t].
    + cbn [SampleVisible_loop]. exists 1.
      split; [lia|]. split; [exact H1|]. split; [intros j Hj; lia|].
      right. split; [exact Hout|]. split; lia.
    + specialize (IH (S k) o1 w1 ltac:(lia)).
      destruct (SampleVisible_loop m (S t) (S k) o1 w1) as [[k' o'] w'].
      destruct IH as (n & Hn & Hatt & Hbefore & Hend).
      exists (S n). split; [lia|]. split; [|split].
      * rewrite attempts_front, Ed. exact Hatt.
      * intros j Hj. destruct j as [|j]; [lia|].
        rewrite attempts_front, Ed. cbn [fst snd].
        destruct j as [|j]; [exact Hout|].
        apply Hbefore. lia.
      * destruct Hend as [(Hs & Hk)|(Hf & Hnt & Hk)].
        -- left. split; [exact Hs|lia].
        -- right. split; [exact Hf|]. split; lia.
Qed.

End SampleVisibleFacts.

(** ** The claims about [SpikeMean] and [SlabMean], and instances *)

(** C5.  For a store whose weight view has the shape [Reset] gives it and a
    visible vector of [V] entries, [SpikeMean] writes at every hidden unit
    [h] the logistic sigmoid of
    [visibleᵀ · W[:,:,h] · W[:,:,h]ᵀ · visible / (2·slabPenalty) + b[h]]. *)
Theorem SpikeMean_entry (m : RBM) (visible out : list R) (h : nat) :
  views_shaped m -> length visible = visibleSize m ->
  h < hiddenSize m -> h < length out ->
  SpikeMean m visible out !!! h
  = LogisticFunction_Fn
      (quad_form m visible h / (2 * slabPenalty m) + bias_at m h)%R.
Proof. apply SpikeMean_value. Qed.

(** C6.  For a store whose weight view has the shape [Reset] gives it, a
    visible vector of [V] entries and an output matrix of [P] rows lying in
    its buffer, [SlabMean] writes column [h] equal to
    [spike[h] / slabPenalty · W[:,:,h]ᵀ · visible]; when [spike[h]] is zero
    the column is zero. *)
Theorem SlabMean_column
    (m : RBM) (visible spike buf : list R) (out : View) (h p : nat) :
  views_shaped m -> length visible = visibleSize m ->
  v_rows out = poolSize m ->
  h < hiddenSize m -> p < poolSize m ->
  v_off out + poolSize m * h + p < length buf ->
  SlabMean m visible spike buf out !!! (v_off out + poolSize m * h + p)
  = (spike !!! h / slabPenalty m * Wt_v m visible h p)%R
  /\ (spike !!! h = 0%R ->
      SlabMean m visible spike buf out !!! (v_off out + poolSize m * h + p)
      = 0%R).
Proof. apply SlabMean_value. Qed.

(** C4.  For a store whose weight view has the shape [Reset] gives it and a
    visible vector of [V] entries, [FreeEnergy] returns
    [0.5·α·‖visible‖² − 0.5·H·P·log(2π/slabPenalty)
     − Σ_h softplus(b[h] − ‖W[:,:,h]ᵀ·visible‖² / (2·slabPenalty))]. *)
Theorem FreeEnergy_formula (m : RBM) (visible : list R) :
  views_shaped m -> length visible = visibleSize m ->
  FreeEnergy m visible
  = (0.5 * alpha m * sqnorm visible
     - 0.5 * INR (hiddenSize m) * INR (poolSize m)
       * ln (2 * PI / slabPenalty m)
     - sum_upto (hiddenSize m) (fun h =>
         SoftplusFunction_Fn
           (bias_at m h - sqnorm_Wt_v m visible h / (2 * slabPenalty m))))%R.
Proof. apply FreeEnergy_value. Qed.

Section Instances.

Local Open Scope R_scope.

(** The one-unit store, the visible vector [1]: the spike mean. *)
Lemma SpikeMean_entry_witness :
  views_shaped unit_rbm /\ length [1] = visibleSize unit_rbm /\
  (0 < hiddenSize unit_rbm)%nat /\ (0 < length [0])%nat /\
  SpikeMean unit_rbm [1] [0] !!! 0%nat
  = LogisticFunction_Fn
      (quad_form unit_rbm [1] 0 / (2 * slabPenalty unit_rbm)
       + bias_at unit_rbm 0).
Proof.
  assert (Hs : views_shaped unit_rbm) by apply Reset_views_shaped.
  assert (H0 : (0 < 1)%nat) by lia.
  split; [exact Hs|]. split; [reflexivity|].
  split; [exact H0|]. split; [exact H0|].
  exact (SpikeMean_entry unit_rbm [1] [0] 0 Hs eq_refl H0 H0).
Defined.

Lemma SpikeMean_in_unit_interval_witness :
  (0 < hiddenSize unit_rbm)%nat /\ (0 < length [0])%nat /\
  0 < SpikeMean unit_rbm [1] [0] !!! 0%nat < 1.
Proof.
  assert (H0 : (0 < 1)%nat) by lia.
  split; [exact H0|]. split; [exact H0|].
  exact (SpikeMean_in_unit_interval unit_rbm [1] [0] 0 H0 H0).
Defined.

(** The one-unit store with the spike off: the slab mean is zero. *)
Lemma SlabMean_column_witness :
  views_shaped unit_rbm /\ length [1] = visibleSize unit_rbm /\
  v_rows (mkView 0 1 1 1) = poolSize unit_rbm /\
  (0 < hiddenSize unit_rbm)%nat /\ (0 < poolSize unit_rbm)%nat /\
  (v_off (mkView 0 1 1 1) + poolSize unit_rbm * 0 + 0 < length [5])%nat /\
  [0] !!! 0%nat = 0 /\
  SlabMean unit_rbm [1] [0] [5] (mkView 0 1 1 1) !!! 0%nat = 0.
Proof.
  assert (Hs : views_shaped unit_rbm) by apply Reset_views_shaped.
  assert (H0 : (0 < 1)%nat) by lia.
  split; [exact Hs|]. split; [reflexivity|]. split; [reflexivity|].
  split; [exact H0|]. split; [exact H0|]. split; [exact H0|].
  split; [reflexivity|].
  exact (proj2 (SlabMean_column unit_rbm [1] [0] [5] (mkView 0 1 1 1) 0 0
                  Hs eq_refl eq_refl H0 H0 H0) eq_refl).
Defined.

Lemma FreeEnergy_formula_witness :
  views_shaped unit_rbm /\ length [1] = visibleSize unit_rbm /\
  FreeEnergy unit_rbm [1]
  = 0.5 * alpha unit_rbm * sqnorm [1]
    - 0.5 * INR (hiddenSize unit_rbm) * INR (poolSize unit_rbm)
      * ln (2 * PI / slabPenalty unit_rbm)
    - sum_upto (hiddenSize unit_rbm) (fun h =>
        SoftplusFunction_Fn
          (bias_at unit_rbm h
           - sqnorm_Wt_v unit_rbm [1] h / (2 * slabPenalty unit_rbm))).
Proof.
  assert (Hs : views_shaped unit_rbm) by apply Reset_views_shaped.
  split; [exact Hs|]. split; [reflexivity|].
  exact (FreeEnergy_formula unit_rbm [1] Hs eq_refl).
Defined.

(** The one-unit store, spike 1 and slab 2: doubling the slab doubles the
    visible mean. *)
Lemma VisibleMean_linear_witness :
  views_shaped unit_rbm /\
  length [1; 2] = (hiddenSize unit_rbm + poolSize unit_rbm * hiddenSize unit_rbm)%nat /\
  VisibleMean unit_rbm (scale_slab unit_rbm 2 [1; 2]) !!! 0%nat
  = 2 * VisibleMean unit_rbm [1; 2] !!! 0%nat.
Proof.
  assert (Hs : views_shaped unit_rbm) by apply Reset_views_shaped.
  assert (H0 : (0 < 1)%nat) by lia.
  split; [exact Hs|]. split; [reflexivity|].
  exact (proj2 (proj2 (VisibleMean_linear unit_rbm [1; 2] Hs eq_refl)) 2 0%nat H0).
Defined.

(** The one-unit store and a gradient buffer of three elements: the last
    one receives [−0.5·‖visible‖²]. *)
Lemma Phase_gradient_witness :
  views_shaped unit_rbm /\ members_sized unit_rbm /\
  length [1] = visibleSize unit_rbm /\
  (visibleSize unit_rbm * poolSize unit_rbm * hiddenSize unit_rbm
   + hiddenSize unit_rbm + 1 <= length [7; 7; 7])%nat /\
  snd (fst (Phase unit_rbm [1] [7; 7; 7] (mkWorld [1] []))) !!! 2%nat
  = -0.5 * sqnorm [1].
Proof.
  assert (Hs : views_shaped unit_rbm) by apply Reset_views_shaped.
  assert (Hm : members_sized unit_rbm) by apply Reset_members_sized.
  assert (Hg : (1 * 1 * 1 + 1 + 1 <= 3)%nat) by lia.
  split; [exact Hs|]. split; [exact Hm|]. split; [reflexivity|].
  split; [exact Hg|].
  pose proof (Phase_gradient unit_rbm [1] [7; 7; 7] (mkWorld [1] [])
                Hs Hm eq_refl Hg) as P.
  destruct (Phase unit_rbm [1] [7; 7; 7] (mkWorld [1] [])) as [[m' g] w'].
  destruct P as (_ & _ & _ & _ & _ & Hp). exact Hp.
Defined.

End Instances.

(** ** Runs on concrete stores *)

Section Runs.

Local Open Scope R_scope.

Lemma norm2_singleton (x : R) : 0 <= x -> norm2 [x] = x.
Proof.
  intros Hx. unfold norm2, accu, square, colvec; simpl.
  rewrite Rplus_0_r. apply sqrt_square. exact Hx.
Qed.

(** One sampling attempt on the one-unit store takes the next number of
    the tape. *)
Lemma unit_draw_visible (vm out : list R) (x : R) (g : list R)
    (tr : list event) :
  length out = 1%nat ->
  fst (draw_visible (set_visibleMean unit_rbm vm) out (mkWorld (x :: g) tr))
  = [x] /\
  gen (snd (draw_visible (set_visibleMean unit_rbm vm) out
              (mkWorld (x :: g) tr))) = g.
Proof.
  intros Hlen. destruct out as [|y [|z out]]; try discriminate.
  split; reflexivity.
Qed.

Lemma count_warn_attempt_calls (m : RBM) :
  count_events is_LogWarn (attempt_calls m) = 0%nat.
Proof.
  destruct (count_attempt_calls m 1) as (_ & Hw).
  cbn [replicate concat] in Hw. rewrite app_nil_r in Hw. exact Hw.
Qed.

(** On the one-unit store, whose radius is 1, a tape that starts with
    [todo] twos makes every attempt of the retry loop fail. *)
Lemma unit_loop_exhausted (vm : list R) (todo : nat) :
  forall (k : nat) (out g : list R) (tr : list event),
  length out = 1%nat -> (0 < todo)%nat ->
  exists tr',
    SampleVisible_loop (set_visibleMean unit_rbm vm) todo k out
                       (mkWorld (replicate todo 2 ++ g) tr)
    = ((k + todo)%nat, [2], mkWorld g tr') /\
    count_events is_LogWarn tr' = count_events is_LogWarn tr.
Proof.
  induction todo as [|t IH]; intros k out g tr Hlen Hpos; [lia|].
  cbn [SampleVisible_loop replicate app].
  destruct (unit_draw_visible vm out 2 (replicate t 2 ++ g) tr Hlen)
    as (Ho & Hg).
  pose proof (draw_visible_spec (set_visibleMean unit_rbm vm) out
                (mkWorld (2 :: replicate t 2 ++ g) tr)) as (_ & Htr).
  destruct (draw_visible _ out _) as [o1 [g1 tr1]].
  cbn [fst snd gen trace] in Ho, Hg, Htr. subst o1 g1.
  assert (Hc1 : count_events is_LogWarn tr1 = count_events is_LogWarn tr).
  { rewrite Htr, count_events_app, count_warn_attempt_calls. lia. }
  rewrite norm2_singleton by lra.
  change (radius (set_visibleMean unit_rbm vm)) with 1.
  destruct (Rlt_dec 2 1) as [Hlt|_]; [lra|].
  destruct t as [|t].
  - exists tr1. cbn [SampleVisible_loop replicate app].
    rewrite Nat.add_1_r. split; [reflexivity|exact Hc1].
  - destruct (IH (S k) [2] g tr1 eq_refl ltac:(lia)) as (tr' & E & Hc).
    exists tr'. rewrite E. split; [|lia]. f_equal. f_equal. lia.
Qed.

(** Ten failed attempts: the last draw is returned and one warning is
    logged. *)
Example SampleVisible_exhausted :
  let '(m', out, w') :=
    SampleVisible unit_rbm [1; 1] [] (mkWorld (replicate 10 2) []) in
  out = [2] /\ gen w' = [] /\ count_events is_LogWarn (trace w') = 1%nat.
Proof.
  unfold SampleVisible. cbv zeta.
  set (m1 := set_visibleMean unit_rbm (VisibleMean unit_rbm [1; 1])).
  destruct (unit_loop_exhausted (VisibleMean unit_rbm [1; 1]) 10 0
              (set_size (visibleSize m1) []) []
              (trace (emit CallVisibleMean (mkWorld (replicate 10 2) []))))
    as (tr' & E & Hc); [reflexivity|lia|].
  fold m1 in E. rewrite app_nil_r in E.
  change (mkWorld (replicate 10 2) _)
    with (emit CallVisibleMean (mkWorld (replicate 10 2) [])) in E.
  unfold numMaxTrials. rewrite E. cbn [Nat.add].
  destruct (decide (10%nat = 10%nat)) as [_|Hne]; [|contradiction].
  split; [reflexivity|]. split; [reflexivity|].
  unfold emit at 1; cbn [trace]. rewrite count_events_app, Hc. reflexivity.
Qed.

(** A first attempt inside the radius: one draw, no warning. *)
Example SampleVisible_first_try :
  let '(m', out, w') :=
    SampleVisible unit_rbm [1; 1] [] (mkWorld [0; 2] []) in
  out = [0] /\ gen w' = [2] /\ count_events is_LogWarn (trace w') = 0%nat.
Proof.
  unfold SampleVisible. cbv zeta.
  set (m1 := set_visibleMean unit_rbm (VisibleMean unit_rbm [1; 1])).
  unfold numMaxTrials. cbn [SampleVisible_loop].
  destruct (unit_draw_visible (VisibleMean unit_rbm [1; 1])
              (set_size (visibleSize m1) []) 0 [2] [CallVisibleMean] eq_refl)
    as (Ho & Hg).
  fold m1 in Ho, Hg.
  change (emit CallVisibleMean (mkWorld [0; 2] []))
    with (mkWorld [0; 2] [CallVisibleMean]).
  pose proof (draw_visible_spec m1 (set_size (visibleSize m1) [])
                (mkWorld [0; 2] [CallVisibleMean])) as (_ & Htr).
  destruct (draw_visible m1 _ _) as [o1 [g1 tr1]].
  cbn [fst snd gen trace] in Ho, Hg, Htr. subst o1 g1 tr1.
  rewrite norm2_singleton by lra.
  change (radius m1) with 1.
  destruct (Rlt_dec 0 1) as [_|Hn]; [|lra].
  destruct (decide (0%nat = 10%nat)) as [Hk|_]; [discriminate|].
  split; [reflexivity|]. split; [reflexivity|].
  cbn [trace]. rewrite count_events_app, count_warn_attempt_calls.
  reflexivity.
Qed.

End Runs.

Section FreeEnergyExample.

Local Open Scope R_scope.

(** The free energy of the visible vector [1, 1] on the example store, by
    substitution in the formula. *)
Example FreeEnergy_example :
  FreeEnergy example_rbm [1; 1]
  = 1 - ln (2 * PI) - 2 * SoftplusFunction_Fn (-0.5).
Proof.
  rewrite FreeEnergy_value by (apply Reset_views_shaped || reflexivity).
  assert (E : forall h, (h < 2)%nat ->
            bias_at example_rbm h
            - sqnorm_Wt_v example_rbm [1; 1] h / (2 * slabPenalty example_rbm)
            = -0.5).
  { intros h Hh. destruct h as [|[|h]]; [| |lia];
      unfold bias_at, sqnorm_Wt_v, Wt_v, W_at, example_rbm; simpl;
      unfold example_init; simpl; lra. }
  change (hiddenSize example_rbm) with 2%nat.
  cbn [sum_upto]. rewrite !E by lia.
  change (slabPenalty example_rbm) with 1.
  change (poolSize example_rbm) with 1%nat.
  replace (2 * PI / 1) with (2 * PI) by lra.
  replace (alpha example_rbm) with 1
    by (unfold alpha, example_rbm; simpl; unfold example_init; reflexivity).
  replace (sqnorm [1; 1]) with 2 by (unfold sqnorm; simpl; lra).
  simpl INR. lra.
Qed.

End FreeEnergyExample.

(** ** More on loops *)

Lemma for_upto_0 {S : Type} (body : nat -> S -> S) (s : S) :
  for_upto 0 body s = s.
Proof. reflexivity. Qed.

Lemma for_upto_ext {S : Type} (n : nat) (f g : nat -> S -> S) (s : S) :
  (forall i x, i < n -> f i x = g i x) -> for_upto n f s = for_upto n g s.
Proof.
  induction n as [|n IH]; intros Hfg; [reflexivity|].
  rewrite !for_upto_S, IH by (intros; apply Hfg; lia).
  apply Hfg. lia.
Qed.

Lemma for_upto_plus {S : Type} (a b : nat) (body : nat -> S -> S) (s : S) :
  for_upto (a + b) body s
  = for_upto b (fun j => body (a + j)) (for_upto a body s).
Proof.
  induction b as [|b IH].
  - rewrite Nat.add_0_r. reflexivity.
  - rewrite Nat.add_succ_r, !for_upto_S, IH. reflexivity.
Qed.

(** Two nested loops over a column-major matrix are one loop over its
    memory. *)
Lemma for_upto_nested {S : Type} (n p : nat) (body : nat -> S -> S) (s : S) :
  for_upto n (fun i x => for_upto p (fun j y => body (j + p * i) y) x) s
  = for_upto (p * n) body s.
Proof.
  induction n as [|n IH].
  - rewrite Nat.mul_0_r. reflexivity.
  - rewrite for_upto_S, IH, Nat.mul_succ_r, for_upto_plus.
    apply for_upto_ext. intros j x _. f_equal. lia.
Qed.

(** ** Loops that draw one number per element *)

Section DrawLoops.

Context {St : Type}.
Variable draw : R -> St -> R * St.

(** Reading each element just before overwriting it is reading it in the
    buffer as it was before the loop. *)
Lemma draw_loop_inplace (n o : nat) (buf0 : list R) (s : St) :
  let res :=
    for_upto n (fun k '(buf, w) =>
      let (x, w') := draw (buf !!! (o + k)) w in (<[o + k := x]> buf, w'))
      (buf0, s) in
  res
  = for_upto n (fun k '(buf, w) =>
      let (x, w') := draw (buf0 !!! (o + k)) w in (<[o + k := x]> buf, w'))
      (buf0, s)
  /\ (forall j, j < o \/ o + n <= j -> fst res !!! j = buf0 !!! j).
Proof.
  induction n as [|n IH]; cbv zeta.
  - rewrite !for_upto_0. split; reflexivity.
  - rewrite !for_upto_S. cbv zeta in IH. destruct IH as (IHeq & IHout).
    rewrite <- IHeq.
    destruct (for_upto n _ (buf0, s)) as [buf w]. cbn [fst] in IHout.
    rewrite IHout by lia.
    destruct (draw (buf0 !!! (o + n)) w) as [x w']. cbn [fst].
    split; [reflexivity|].
    intros j Hj. rewrite list_lookup_total_insert_ne by lia.
    apply IHout. lia.
Qed.

End DrawLoops.

Section NormalLoop.

Context {G : Type} `{RandomSource G}.

Lemma length_normal_draws (mean : nat -> R) (var : R) (n : nat) (g : G) :
  length (fst (normal_draws mean var n g)) = n.
Proof.
  induction n as [|n IH]; [reflexivity|]. simpl.
  destruct (normal_draws mean var n g) as [xs g'].
  destruct (draw_normal (mean n) var g') as [x g''].
  simpl in *. rewrite length_app, IH. simpl. lia.
Qed.

Lemma normal_draws_ext (mean mean' : nat -> R) (var : R) (n : nat) (g : G) :
  (forall k, k < n -> mean k = mean' k) ->
  normal_draws mean var n g = normal_draws mean' var n g.
Proof.
  induction n as [|n IH]; intros Hm; [reflexivity|]. simpl.
  rewrite IH by (intros k Hk; apply Hm; lia).
  rewrite Hm by lia. reflexivity.
Qed.

(** [n] iterations of a loop that writes normal draws from [d] on. *)
Lemma normal_loop (n d : nat) (mean : nat -> R) (var : R)
    (dst : list R) (w : World G) :
  let res :=
    for_upto n (fun k '(buf, w) =>
      let (x, w') := RandNormal (mean k) var w in (<[d + k := x]> buf, w'))
      (dst, w) in
  let drawn := normal_draws mean var n (gen w) in
  length (fst res) = length dst /\
  (forall k, k < n -> d + k < length dst ->
     fst res !!! (d + k) = fst drawn !!! k) /\
  (forall j, j < d \/ d + n <= j -> fst res !!! j = dst !!! j) /\
  gen (snd res) = snd drawn /\
  trace (snd res)
  = trace w ++ ((fun k => CallRandNormal (mean k) var) <$> seq 0 n).
Proof.
  induction n as [|n IH]; cbv zeta.
  - rewrite for_upto_0. simpl. rewrite app_nil_r.
    repeat split; intros; lia.
  - rewrite for_upto_S. cbv zeta in IH.
    pose proof (length_normal_draws mean var n (gen w)) as Hdl.
    destruct (for_upto n _ (dst, w)) as [buf wn].
    cbn [normal_draws].
    destruct (normal_draws mean var n (gen w)) as [xs g'].
    destruct IH as (IHlen & IHin & IHout & IHgen & IHtr).
    cbn [fst snd] in IHlen, IHin, IHout, IHgen, IHtr, Hdl.
    unfold RandNormal. rewrite IHgen.
    destruct (draw_normal (mean n) var g') as [x g''].
    cbn [fst snd gen trace].
    split; [|split; [|split; [|split]]].
    + rewrite length_insert. exact IHlen.
    + intros k Hk Hl. destruct (decide (k = n)) as [->|Hne].
      * rewrite list_lookup_total_insert_eq by lia.
        rewrite list_lookup_total_middle by lia. reflexivity.
      * rewrite list_lookup_total_insert_ne by lia.
        rewrite lookup_total_app_l by lia. apply IHin; lia.
    + intros j Hj. rewrite list_lookup_total_insert_ne by lia.
      apply IHout. lia.
    + reflexivity.
    + rewrite IHtr, seq_S, fmap_app, app_assoc. reflexivity.
Qed.

End NormalLoop.

(** ** [SampleSpike] and [SampleSlab], apart and in place *)

Section SamplerFacts.

Context {G : Type} `{RandomSource G}.

Lemma one_point_zero_div (x : R) : (1.0 / x = 1 / x)%R.
Proof. lra. Qed.

(** [SampleSpike] on one vector is [SampleSpike] on two copies of it. *)
Lemma SampleSpike_inplace_eq (m : RBM) (spike : list R) (w : World G) :
  SampleSpike_inplace m spike w = SampleSpike m spike spike w.
Proof.
  exact (proj1 (draw_loop_inplace RandBernoulli (hiddenSize m) 0 spike w)).
Qed.

(** [SampleSlab] as one loop over the memory of its [P × H] matrices. *)
Lemma SampleSlab_flat (m : RBM) (slabMean_ : list R) (mean : View)
    (slab : list R) (out : View) (w : World G) :
  v_rows mean = poolSize m -> v_rows out = poolSize m ->
  SampleSlab m slabMean_ mean slab out w
  = for_upto (poolSize m * hiddenSize m) (fun k '(buf, w) =>
      let (x, w') :=
        RandNormal (slabMean_ !!! (v_off mean + k)) (1 / slabPenalty m)%R w in
      (<[v_off out + k := x]> buf, w'))
      (slab, w).
Proof.
  intros Hm Ho. unfold SampleSlab. rewrite Hm, Ho, one_point_zero_div.
  rewrite <- for_upto_nested.
  apply for_upto_ext. intros i [buf w0] _. reflexivity.
Qed.

Lemma SampleSlab_inplace_flat (m : RBM) (slab : list R) (v : View)
    (w : World G) :
  v_rows v = poolSize m ->
  SampleSlab_inplace m slab v w
  = for_upto (poolSize m * hiddenSize m) (fun k '(buf, w) =>
      let (x, w') :=
        RandNormal (buf !!! (v_off v + k)) (1 / slabPenalty m)%R w in
      (<[v_off v + k := x]> buf, w'))
      (slab, w).
Proof.
  intros Hv. unfold SampleSlab_inplace. rewrite Hv, one_point_zero_div.
  rewrite <- for_upto_nested.
  apply for_upto_ext. intros i [buf w0] _. reflexivity.
Qed.

(** [SampleSlab] on one matrix is [SampleSlab] on two copies of it. *)
Lemma SampleSlab_inplace_eq (m : RBM) (slab : list R) (v : View)
    (w : World G) :
  v_rows v = poolSize m ->
  SampleSlab_inplace m slab v w = SampleSlab m slab v slab v w.
Proof.
  intros Hv. rewrite SampleSlab_inplace_flat, SampleSlab_flat by exact Hv.
  exact (proj1 (draw_loop_inplace
                  (fun p => RandNormal p (1 / slabPenalty m)%R)
                  (poolSize m * hiddenSize m) (v_off v) slab w)).
Qed.

(** What [SampleSlab] leaves in its output and in the world. *)
Lemma SampleSlab_spec (m : RBM) (slabMean_ : list R) (mean : View)
    (slab : list R) (out : View) (w : World G) :
  v_rows mean = poolSize m -> v_rows out = poolSize m ->
  let res := SampleSlab m slabMean_ mean slab out w in
  let means := fun k => slabMean_ !!! (v_off mean + k) in
  let drawn :=
    normal_draws means (1 / slabPenalty m)%R
                 (poolSize m * hiddenSize m) (gen w) in
  length (fst res) = length slab /\
  (forall k, k < poolSize m * hiddenSize m -> v_off out + k < length slab ->
     fst res !!! (v_off out + k) = fst drawn !!! k) /\
  (forall j, j < v_off out \/
             v_off out + poolSize m * hiddenSize m <= j ->
     fst res !!! j = slab !!! j) /\
  gen (snd res) = snd drawn /\
  trace (snd res) = trace w ++ slab_calls m means.
Proof.
  intros Hm Ho. cbv zeta. rewrite SampleSlab_flat by assumption.
  apply (normal_loop (poolSize m * hiddenSize m) (v_off out)
           (fun k => slabMean_ !!! (v_off mean + k))).
Qed.

End SamplerFacts.

(** ** [SlabMean] on two views of one buffer *)

(** A loop that writes block [i] from a value it reads at [so + i] in the
    buffer it writes to, when no block covers a position it reads. *)
Lemma block_loop_shared (n len off so : nat) (blk : R -> nat -> list R)
    (buf0 : list R) :
  (forall x i, length (blk x i) = len) ->
  so + n <= off \/ off + len * n <= so ->
  let res :=
    for_upto n (fun i b =>
      list_inserts (off + len * i) (blk (b !!! (so + i)) i) b) buf0 in
  res
  = for_upto n (fun i b =>
      list_inserts (off + len * i) (blk (buf0 !!! (so + i)) i) b) buf0
  /\ (forall j, j < off \/ off + len * n <= j -> res !!! j = buf0 !!! j).
Proof.
  intros Hlen. induction n as [|n IH]; intros Hdisj; cbv zeta.
  - rewrite !for_upto_0. split; reflexivity.
  - rewrite !for_upto_S. cbv zeta in IH.
    destruct IH as (IHeq & IHout); [lia|].
    rewrite <- IHeq.
    set (r := for_upto n _ buf0) in *.
    rewrite (IHout (so + n)) by lia.
    split; [reflexivity|].
    intros j Hj. destruct Hj as [Hj|Hj].
    + rewrite list_lookup_total_inserts_lt by lia. apply IHout. lia.
    + rewrite list_lookup_total_inserts_ge by (rewrite Hlen; lia).
      apply IHout. lia.
Qed.

Lemma SlabMean_shared_eq (m : RBM) (visible buf : list R)
    (spike out : View) :
  v_rows out = v_cols (weightCube m) ->
  v_off spike + hiddenSize m <= v_off out \/
  v_off out + v_rows out * hiddenSize m <= v_off spike ->
  SlabMean_shared m visible buf spike out
  = SlabMean m visible (drop (v_off spike) buf) buf out.
Proof.
  intros Hrows Hdisj. unfold SlabMean_shared, SlabMean, set_col, vget.
  destruct (block_loop_shared (hiddenSize m) (v_rows out) (v_off out)
              (v_off spike)
              (fun x i =>
                 mem (mul (scale_l ((1.0 / slabPenalty m) * x)%R
                             (t (slice (parameter m) (weightCube m) i)))
                          (colvec visible)))
              buf) as (Heq & _).
  { intros x i. rewrite length_slab_column. symmetry. exact Hrows. }
  { exact Hdisj. }
  cbv zeta in Heq. rewrite Heq.
  apply for_upto_ext. intros i b _.
  rewrite lookup_total_drop. reflexivity.
Qed.

(** ** [SampleHidden] *)

Section SampleHiddenFacts.

Context {G : Type} `{RandomSource G}.

Lemma slab_calls_ext (m : RBM) (mean mean' : nat -> R) :
  (forall k, k < poolSize m * hiddenSize m -> mean k = mean' k) ->
  slab_calls m mean = slab_calls m mean'.
Proof.
  intros Hm. unfold slab_calls. apply list_eq. intros i.
  rewrite !list_lookup_fmap.
  destruct (decide (i < poolSize m * hiddenSize m)) as [Hi|Hi].
  - rewrite lookup_seq_lt by exact Hi. simpl. rewrite Hm by exact Hi.
    reflexivity.
  - rewrite lookup_seq_ge by lia. reflexivity.
Qed.

Lemma flat_index (P n k : nat) :
  k < P * n ->
  k / P < n /\ k mod P < P /\ k = P * (k / P) + k mod P.
Proof.
  intros Hk. assert (HP : P <> 0) by (intros ->; lia).
  split; [|split].
  - apply Nat.Div0.div_lt_upper_bound. exact Hk.
  - apply Nat.mod_upper_bound. exact HP.
  - apply Nat.div_mod_eq.
Qed.

(** What [SampleHidden] leaves in its output and in the world. *)
Lemma SampleHidden_spec (m : RBM) (input output : list R) (w : World G) :
  views_shaped m -> length input = visibleSize m ->
  let '(out, w') := SampleHidden m input output w in
  let spikes :=
    bernoulli_draws (spike_prob m input) (hiddenSize m) (gen w) in
  let means := fun k : nat =>
    (fst spikes !!! (k / poolSize m)%nat / slabPenalty m
     * Wt_v m input (k / poolSize m)%nat (k mod poolSize m)%nat)%R in
  let slabs :=
    normal_draws means (1 / slabPenalty m)%R
                 (poolSize m * hiddenSize m) (snd spikes) in
  length out = hiddenSize m + poolSize m * hiddenSize m /\
  (forall h, h < hiddenSize m -> out !!! h = fst spikes !!! h) /\
  (forall k, k < poolSize m * hiddenSize m ->
     out !!! (hiddenSize m + k) = fst slabs !!! k) /\
  gen w' = snd slabs /\
  trace w'
  = trace w ++ spike_calls m (spike_prob m input) ++ slab_calls m means.
Proof.
  intros Hshape Hv. pose proof Hshape as (_ & Hc & _).
  unfold SampleHidden. cbv zeta.
  set (out0 := set_size (hiddenSize m + poolSize m * hiddenSize m) output).
  set (out1 := SpikeMean m input out0).
  set (slab := mkView (0 + hiddenSize m) (poolSize m) (hiddenSize m) 1).
  assert (Hlen1 : length out1 = hiddenSize m + poolSize m * hiddenSize m).
  { unfold out1. rewrite length_SpikeMean. apply length_set_size. }
  assert (Hsm : forall h, h < hiddenSize m ->
                  out1 !!! h = spike_prob m input h).
  { intros h Hh. apply SpikeMean_value; try assumption.
    fold out0. rewrite <- (length_SpikeMean m input out0). fold out1. lia. }
  rewrite SampleSpike_inplace_eq.
  destruct (SampleSpike_spec m out1 out1 w)
    as (Hlen2 & Hss & _ & Hgen2 & Htr2).
  rewrite (bernoulli_draws_ext (fun i => out1 !!! i) (spike_prob m input))
    in Hss, Hgen2 by exact Hsm.
  rewrite (spike_calls_ext m (fun i => out1 !!! i) (spike_prob m input))
    in Htr2 by exact Hsm.
  destruct (SampleSpike m out1 out1 w) as [out2 w1].
  cbn [fst snd] in Hlen2, Hss, Hgen2, Htr2.
  rewrite SlabMean_shared_eq by (simpl; lia).
  change (drop (v_off (mkView 0 (hiddenSize m) 1 1)) out2) with out2.
  set (out3 := SlabMean m input out2 out2 slab).
  destruct (SlabMean_blocks m input out2 out2 slab) as (Hlen3 & _ & Hout3);
    [simpl; lia|]. fold out3 in Hlen3, Hout3.
  rewrite SampleSlab_inplace_eq by reflexivity.
  destruct (SampleSlab_spec m out3 slab out3 slab w1 eq_refl eq_refl)
    as (Hlen4 & Hin4 & Hout4 & Hgen4 & Htr4).
  set (spikes := bernoulli_draws (spike_prob m input) (hiddenSize m) (gen w))
    in *.
  set (means := fun k : nat =>
    (fst spikes !!! (k / poolSize m)%nat / slabPenalty m
     * Wt_v m input (k / poolSize m)%nat (k mod poolSize m)%nat)%R).
  assert (Hmeans : forall k, k < poolSize m * hiddenSize m ->
                     out3 !!! (v_off slab + k) = means k).
  { intros k Hk. destruct (flat_index _ _ _ Hk) as (Hh & Hp & Ek).
    unfold means. rewrite <- Hss by lia.
    rewrite Ek at 1. rewrite Nat.add_assoc.
    apply (SlabMean_value m input out2 out2 slab); try assumption;
      try reflexivity.
    rewrite Hlen2, Hlen1. simpl. lia. }
  rewrite (normal_draws_ext _ means) in Hin4, Hgen4 by exact Hmeans.
  rewrite (slab_calls_ext m _ means) in Htr4 by exact Hmeans.
  destruct (SampleSlab m out3 slab out3 slab w1) as [out4 w2].
  cbn [fst snd] in Hlen4, Hin4, Hout4, Hgen4, Htr4.
  cbv zeta. fold spikes. fold means. rewrite <- Hgen2.
  split; [|split; [|split; [|split]]].
  - rewrite Hlen4, Hlen3, Hlen2. exact Hlen1.
  - intros h Hh. rewrite Hout4 by (left; simpl; lia).
    rewrite Hout3 by (left; simpl; lia). apply Hss; lia.
  - intros k Hk. apply (Hin4 k Hk). rewrite Hlen3, Hlen2, Hlen1. simpl. lia.
  - exact Hgen4.
  - rewrite Htr4, Htr2, <- app_assoc. reflexivity.
Qed.

End SampleHiddenFacts.

(** ** Further properties of the samplers *)

Section SamplerTheorems.

Context {G : Type} `{RandomSource G}.

(** X1.  [SampleSpike] keeps the length of its output, makes one
    Bernoulli draw per hidden unit, in order, with the entries of
    [spikeMean] as probabilities, stores draw [h] at entry [h], leaves
    every entry from [H] on as it was, and advances the random source by
    exactly these [H] draws. *)
Theorem SampleSpike_draws (m : RBM) (sm spike : list R) (w : World G) :
  let res := SampleSpike m sm spike w in
  let drawn := bernoulli_draws (fun i => sm !!! i) (hiddenSize m) (gen w) in
  length (fst res) = length spike /\
  (forall h, h < hiddenSize m -> h < length spike ->
     fst res !!! h = fst drawn !!! h) /\
  (forall j, hiddenSize m <= j -> fst res !!! j = spike !!! j) /\
  gen (snd res) = snd drawn /\
  trace (snd res) = trace w ++ spike_calls m (fun h => sm !!! h).
Proof. apply SampleSpike_spec. Qed.

(** X2.  Calling [SampleSpike] with the same vector as input and output, as
    [SampleHidden] does, gives what calling it with a copy of the vector as
    input gives: every probability is read before its entry is
    overwritten. *)
Theorem SampleSpike_in_place (m : RBM) (spike : list R) (w : World G) :
  SampleSpike_inplace m spike w = SampleSpike m spike spike w.
Proof. apply SampleSpike_inplace_eq. Qed.

(** X3.  For matrices of [P] rows, [SampleSlab] keeps the length of its
    output, makes one normal draw per entry of the [P × H] matrix, in the
    order of its memory, with the entry of [slabMean] as mean and
    [1/slabPenalty] as second argument, stores each draw at its entry,
    leaves every position outside the output matrix as it was, and
    advances the random source by exactly these [P·H] draws. *)
Theorem SampleSlab_draws (m : RBM) (slabMean_ : list R) (mean : View)
    (slab : list R) (out : View) (w : World G) :
  v_rows mean = poolSize m -> v_rows out = poolSize m ->
  let res := SampleSlab m slabMean_ mean slab out w in
  let means := fun k => slabMean_ !!! (v_off mean + k) in
  let drawn :=
    normal_draws means (1 / slabPenalty m)%R
                 (poolSize m * hiddenSize m) (gen w) in
  length (fst res) = length slab /\
  (forall k, k < poolSize m * hiddenSize m -> v_off out + k < length slab ->
     fst res !!! (v_off out + k) = fst drawn !!! k) /\
  (forall j, j < v_off out \/
             v_off out + poolSize m * hiddenSize m <= j ->
     fst res !!! j = slab !!! j) /\
  gen (snd res) = snd drawn /\
  trace (snd res) = trace w ++ slab_calls m means.
Proof. apply SampleSlab_spec. Qed.

(** X4.  Calling [SampleSlab] with the same matrix of [P] rows as input and
    output, as [SampleHidden] does, gives what calling it with a copy of
    the matrix as input gives. *)
Theorem SampleSlab_in_place (m : RBM) (slab : list R) (v : View)
    (w : World G) :
  v_rows v = poolSize m ->
  SampleSlab_inplace m slab v w = SampleSlab m slab v slab v w.
Proof. apply SampleSlab_inplace_eq. Qed.

(** X6.  For a store whose weight view has the shape [Reset] gives it and a
    visible vector of [V] entries, [SampleHidden] returns [H + P·H]
    entries: first the spikes, Bernoulli draws with the spike means as
    probabilities, then the slab, normal draws whose means are the slab
    means conditioned on those spikes and whose second argument is
    [1/slabPenalty]; the random source is asked for the [H] spikes first
    and the [P·H] slab entries after, and for nothing else. *)
Theorem SampleHidden_output (m : RBM) (input output : list R) (w : World G) :
  views_shaped m -> length input = visibleSize m ->
  let '(out, w') := SampleHidden m input output w in
  let spikes :=
    bernoulli_draws (spike_prob m input) (hiddenSize m) (gen w) in
  let means := fun k : nat =>
    (fst spikes !!! (k / poolSize m)%nat / slabPenalty m
     * Wt_v m input (k / poolSize m)%nat (k mod poolSize m)%nat)%R in
  let slabs :=
    normal_draws means (1 / slabPenalty m)%R
                 (poolSize m * hiddenSize m) (snd spikes) in
  length out = hiddenSize m + poolSize m * hiddenSize m /\
  (forall h, h < hiddenSize m -> out !!! h = fst spikes !!! h) /\
  (forall k, k < poolSize m * hiddenSize m ->
     out !!! (hiddenSize m + k) = fst slabs !!! k) /\
  gen w' = snd slabs /\
  trace w'
  = trace w ++ spike_calls m (spike_prob m input) ++ slab_calls m means.
Proof. apply SampleHidden_spec. Qed.

(** X7.  From the same state of the random source, [SampleHidden] and
    [HiddenMean] draw the same spikes: the spike part of the output of
    [SampleHidden] is what [HiddenMean] leaves in [spikeSamples], the slab
    part of the output of [HiddenMean] holds the means of the normal draws
    of [SampleHidden], and the calls of [HiddenMean] are the first calls of
    [SampleHidden]. *)
Theorem SampleHidden_matches_HiddenMean
    (m : RBM) (input output output' : list R) (w : World G) :
  views_shaped m -> members_sized m -> length input = visibleSize m ->
  let '(m', mean, wm) := HiddenMean m input output w in
  let '(sample, ws) := SampleHidden m input output' w in
  (forall h, h < hiddenSize m -> sample !!! h = spikeSamples m' !!! h) /\
  trace ws
  = trace wm ++ slab_calls m (fun k => mean !!! (hiddenSize m + k)).
Proof.
  intros Hshape Hsized Hv.
  pose proof (HiddenMean_spec m input output w Hshape Hsized Hv) as HM.
  pose proof (SampleHidden_spec m input output' w Hshape Hv) as SH.
  destruct (HiddenMean m input output w) as [[m' mean] wm].
  destruct (SampleHidden m input output' w) as [sample ws].
  cbv zeta in SH.
  destruct HM as (_ & _ & Hss & Hslab & Htr).
  destruct SH as (_ & Hsp & _ & _ & Htr').
  split.
  - intros h Hh. rewrite Hsp, Hss by exact Hh. reflexivity.
  - rewrite Htr', Htr, <- app_assoc. f_equal. f_equal.
    apply slab_calls_ext. intros k Hk.
    destruct (flat_index _ _ _ Hk) as (Hh & Hp & Ek).
    symmetry. rewrite Ek at 1.
    rewrite Nat.add_assoc, Hslab, Hss by assumption. reflexivity.
Qed.

End SamplerTheorems.

(** X5.  When the spikes that [SlabMean] reads and the matrix it writes are
    two views of one buffer that do not overlap, as in [SampleHidden], the
    result is what reading the spikes in a copy of the buffer gives. *)
Theorem SlabMean_on_shared_buffer (m : RBM) (visible buf : list R)
    (spike out : View) :
  v_rows out = v_cols (weightCube m) ->
  v_off spike + hiddenSize m <= v_off out \/
  v_off out + v_rows out * hiddenSize m <= v_off spike ->
  SlabMean_shared m visible buf spike out
  = SlabMean m visible (drop (v_off spike) buf) buf out.
Proof. apply SlabMean_shared_eq. Qed.

Section SamplerInstances.

Local Open Scope R_scope.

Lemma SampleSlab_draws_witness :
  v_rows (mkView 0 1 1 1) = poolSize unit_rbm /\
  v_rows (mkView 1 1 1 1) = poolSize unit_rbm /\
  length (fst (SampleSlab unit_rbm [4] (mkView 0 1 1 1)
                 [0; 5] (mkView 1 1 1 1) (mkWorld [3] [])))
  = 2%nat.
Proof.
  split; [reflexivity|]. split; [reflexivity|].
  exact (proj1 (SampleSlab_draws unit_rbm [4] (mkView 0 1 1 1)
                  [0; 5] (mkView 1 1 1 1) (mkWorld [3] [])
                  eq_refl eq_refl)).
Defined.

Lemma SampleSlab_in_place_witness :
  v_rows (mkView 1 1 1 1) = poolSize unit_rbm /\
  SampleSlab_inplace unit_rbm [0; 5] (mkView 1 1 1 1) (mkWorld [3] [])
  = SampleSlab unit_rbm [0; 5] (mkView 1 1 1 1) [0; 5] (mkView 1 1 1 1)
               (mkWorld [3] []).
Proof.
  split; [reflexivity|].
  exact (SampleSlab_in_place unit_rbm [0; 5] (mkView 1 1 1 1)
           (mkWorld [3] []) eq_refl).
Defined.

Lemma SlabMean_on_shared_buffer_witness :
  v_rows (mkView 1 1 1 1) = v_cols (weightCube unit_rbm) /\
  (v_off (mkView 0 1 1 1) + hiddenSize unit_rbm <= v_off (mkView 1 1 1 1))%nat
  /\
  SlabMean_shared unit_rbm [1] [1; 5] (mkView 0 1 1 1) (mkView 1 1 1 1)
  = SlabMean unit_rbm [1] (drop 0 [1; 5]) [1; 5] (mkView 1 1 1 1).
Proof.
  assert (Hle : (0 + 1 <= 1)%nat) by lia.
  split; [reflexivity|]. split; [exact Hle|].
  exact (SlabMean_on_shared_buffer unit_rbm [1] [1; 5] (mkView 0 1 1 1)
           (mkView 1 1 1 1) eq_refl (or_introl Hle)).
Defined.

Lemma SampleHidden_output_witness :
  views_shaped unit_rbm /\ length [1] = visibleSize unit_rbm /\
  length (fst (SampleHidden unit_rbm [1] [] (mkWorld [1; 3] []))) = 2%nat.
Proof.
  assert (Hs : views_shaped unit_rbm) by apply Reset_views_shaped.
  split; [exact Hs|]. split; [reflexivity|].
  pose proof (SampleHidden_output unit_rbm [1] [] (mkWorld [1; 3] [])
                Hs eq_refl) as S.
  destruct (SampleHidden unit_rbm [1] [] (mkWorld [1; 3] [])) as [out w'].
  exact (proj1 S).
Defined.

Lemma SampleHidden_matches_HiddenMean_witness :
  views_shaped unit_rbm /\ members_sized unit_rbm /\
  length [1] = visibleSize unit_rbm /\
  fst (SampleHidden unit_rbm [1] [] (mkWorld [1; 3] [])) !!! 0%nat
  = spikeSamples
      (fst (fst (HiddenMean unit_rbm [1] [] (mkWorld [1; 3] [])))) !!! 0%nat.
Proof.
  assert (Hs : views_shaped unit_rbm) by apply Reset_views_shaped.
  assert (Hm : members_sized unit_rbm) by apply Reset_members_sized.
  assert (H0 : (0 < 1)%nat) by lia.
  split; [exact Hs|]. split; [exact Hm|]. split; [reflexivity|].
  pose proof (SampleHidden_matches_HiddenMean unit_rbm [1] [] []
                (mkWorld [1; 3] []) Hs Hm eq_refl) as S.
  destruct (HiddenMean unit_rbm [1] [] (mkWorld [1; 3] [])) as [[m' mean] wm].
  destruct (SampleHidden unit_rbm [1] [] (mkWorld [1; 3] [])) as [sample ws].
  exact (proj1 S 0%nat H0).
Defined.

End SamplerInstances.

(** ** Further properties of [Reset] *)

Lemma set_size_idem (n : nat) (buf : list R) :
  set_size n (set_size n buf) = set_size n buf.
Proof.
  unfold set_size at 1. rewrite length_set_size.
  destruct (decide (n = n)) as [_|Hne]; [reflexivity|contradiction].
Qed.

(** X8.  Resetting a store that has just been reset changes nothing, with
    an initializer that is a function of the buffer and sizes it is
    given. *)
Theorem Reset_idempotent (m : RBM) : Reset (Reset m) = Reset m.
Proof.
  unfold Reset. cbn [visibleSize hiddenSize poolSize batchSize slabPenalty
    radius initializeRule parameter positiveGradient negativeGradient
    tempNegativeGradient negativeSamples visibleMean spikeMean spikeSamples
    slabMean weight_n_elem].
  rewrite !set_size_idem, !zeros_set_size, !length_replicate.
  reflexivity.
Qed.

Lemma mul_shuffle (a b c : nat) : a * b * c = a * c * b.
Proof. lia. Qed.

(** X9.  When the member [weight] read by [Reset] has the [V·P·H] elements
    of the weight tensor, the three views that [Reset] builds lie inside
    the parameter buffer it allocates exactly when there is at least one
    visible unit: with [V = 0] the visible-penalty view starts at the end
    of the buffer. *)
Theorem Reset_views_in_bounds (m : RBM) :
  weight_n_elem m = visibleSize m * poolSize m * hiddenSize m ->
  (forall i, 0 < views_at (Reset m) i ->
     i < visibleSize m * hiddenSize m * poolSize m
         + visibleSize m + hiddenSize m)
  <-> 1 <= visibleSize m.
Proof.
  intros Hw.
  rewrite (mul_shuffle (visibleSize m) (hiddenSize m) (poolSize m)).
  unfold views_at, Reset, in_view, v_n_elem; simpl. rewrite Hw.
  set (VPH := visibleSize m * poolSize m * hiddenSize m).
  split.
  - intros Hin. specialize (Hin (VPH + hiddenSize m)).
    assert (E1 : (VPH + hiddenSize m * 1 * 1 <=? VPH + hiddenSize m) = true)
      by (apply Nat.leb_le; lia).
    assert (E2 : (VPH + hiddenSize m <? VPH + hiddenSize m * 1 * 1 + 1)
                 = true)
      by (apply Nat.ltb_lt; lia).
    rewrite E1, E2 in Hin. simpl in Hin. lia.
  - intros HV i.
    destruct (Nat.ltb_spec i VPH), (Nat.leb_spec VPH i),
      (Nat.ltb_spec i (VPH + hiddenSize m * 1 * 1)),
      (Nat.leb_spec (VPH + hiddenSize m * 1 * 1) i),
      (Nat.ltb_spec i (VPH + hiddenSize m * 1 * 1 + 1));
      simpl; lia.
Qed.

Lemma Reset_views_in_bounds_witness :
  let m := blank 2 1 1 1%R 1%R keep_init 2 in
  weight_n_elem m = visibleSize m * poolSize m * hiddenSize m /\
  1 <= visibleSize m /\
  (0 < views_at (Reset m) 3 -> 3 < 5).
Proof.
  intros m.
  assert (Hw : weight_n_elem m = visibleSize m * poolSize m * hiddenSize m)
    by reflexivity.
  assert (HV : 1 <= 2) by lia.
  split; [exact Hw|]. split; [exact HV|].
  exact (proj2 (Reset_views_in_bounds m Hw) HV 3).
Defined.

(** X10.  [Reset] leaves the store as [Phase] and [HiddenMean] need it:
    the weight view has the shape [V × P × H], the scratch members have
    the sizes of the configuration, [negativeSamples] has [V · batchSize]
    elements, and with at least one visible unit each gradient buffer is
    long enough for the [V·P·H + H + 1] elements that [Phase] writes. *)
Theorem Reset_prepares (m : RBM) :
  let r := Reset m in
  let written :=
    visibleSize r * poolSize r * hiddenSize r + hiddenSize r + 1 in
  views_shaped r /\ members_sized r /\
  length (negativeSamples r) = visibleSize r * batchSize r /\
  (1 <= visibleSize m ->
   written <= length (positiveGradient r) /\
   written <= length (negativeGradient r) /\
   written <= length (tempNegativeGradient r)).
Proof.
  cbv zeta. split; [apply Reset_views_shaped|].
  split; [apply Reset_members_sized|].
  split; [apply length_set_size|].
  intros HV. unfold Reset; simpl.
  rewrite !zeros_set_size, !length_replicate.
  rewrite (mul_shuffle (visibleSize m) (hiddenSize m) (poolSize m)). lia.
Qed.

(** ** What [SpikeMean] and [SlabMean] leave alone *)

(** X11.  [SpikeMean] keeps the length of its output and changes none of
    its entries from [H] on. *)
Theorem SpikeMean_frame (m : RBM) (visible out : list R) :
  length (SpikeMean m visible out) = length out /\
  (forall j, hiddenSize m <= j -> SpikeMean m visible out !!! j = out !!! j).
Proof.
  unfold SpikeMean.
  match goal with
  | |- length (for_upto _ (fun i b => <[i := @?f i]> b) _) = _ /\ _ =>
      destruct (for_upto_writes (hiddenSize m) f out) as (Hlen & _ & Hout)
  end.
  split; assumption.
Qed.

(** X12.  For an output matrix with as many rows as the weight slices
    have columns, [SlabMean] keeps the length of the buffer that holds its
    output and changes no position outside the [H] columns of the output
    matrix. *)
Theorem SlabMean_frame (m : RBM) (visible spike buf : list R) (out : View) :
  v_rows out = v_cols (weightCube m) ->
  length (SlabMean m visible spike buf out) = length buf /\
  (forall j, j < v_off out \/ v_off out + v_rows out * hiddenSize m <= j ->
     SlabMean m visible spike buf out !!! j = buf !!! j).
Proof.
  intros Hrows.
  destruct (SlabMean_blocks m visible spike buf out Hrows)
    as (Hlen & _ & Hout).
  split; assumption.
Qed.

Lemma SlabMean_frame_witness :
  v_rows (mkView 1 1 1 1) = v_cols (weightCube unit_rbm) /\
  SlabMean unit_rbm [1%R] [1%R] [8%R; 5%R; 9%R] (mkView 1 1 1 1) !!! 2
  = 9%R.
Proof.
  split; [reflexivity|].
  exact (proj2 (SlabMean_frame unit_rbm [1%R] [1%R] [8%R; 5%R; 9%R]
                  (mkView 1 1 1 1) eq_refl) 2 (or_intror (le_n 2))).
Defined.

(** ** Further properties of the conditional means and the free energy *)

Section MeanTheorems.

Local Open Scope R_scope.

Lemma sum_upto_nonneg (n : nat) (f : nat -> R) :
  (forall i, (i < n)%nat -> 0 <= f i) -> 0 <= sum_upto n f.
Proof.
  induction n as [|n IH]; intros Hf; simpl; [lra|].
  assert (0 <= sum_upto n f) by (apply IH; intros; apply Hf; lia).
  assert (0 <= f n) by (apply Hf; lia). lra.
Qed.

Lemma sqnorm_Wt_v_nonneg (m : RBM) (v : list R) (h : nat) :
  0 <= sqnorm_Wt_v m v h.
Proof.
  unfold sqnorm_Wt_v. apply sum_upto_nonneg. intros p _.
  apply Rle_0_sqr.
Qed.

Lemma LogisticFunction_Fn_monotone (x y : R) :
  x <= y -> LogisticFunction_Fn x <= LogisticFunction_Fn y.
Proof.
  intros Hxy. unfold LogisticFunction_Fn.
  pose proof (exp_pos (- x)) as Hx. pose proof (exp_pos (- y)) as Hy.
  assert (He : exp (- y) <= exp (- x)).
  { destruct Hxy as [Hlt | Heq]; [|rewrite Heq; lra].
    left. apply exp_increasing. lra. }
  unfold Rdiv. rewrite !Rmult_1_l.
  apply Rinv_le_contravar; lra.
Qed.

(** X13.  For a store whose weight view has the shape [Reset] gives it, a
    visible vector of [V] entries and a positive slab penalty, the spike
    mean of a hidden unit is never below the logistic sigmoid of its bias:
    a visible vector can raise the probability of a spike, not lower
    it. *)
Theorem SpikeMean_at_least_bias
    (m : RBM) (visible out : list R) (h : nat) :
  views_shaped m -> length visible = visibleSize m ->
  0 < slabPenalty m ->
  (h < hiddenSize m)%nat -> (h < length out)%nat ->
  LogisticFunction_Fn (bias_at m h) <= SpikeMean m visible out !!! h.
Proof.
  intros Hshape Hv Hsp Hh Hl.
  rewrite SpikeMean_value by assumption.
  apply LogisticFunction_Fn_monotone.
  rewrite quad_form_sqnorm.
  pose proof (sqnorm_Wt_v_nonneg m visible h) as Hq.
  assert (0 <= sqnorm_Wt_v m visible h / (2 * slabPenalty m)).
  { apply Rmult_le_pos; [exact Hq|].
    left. apply Rinv_0_lt_compat. lra. }
  lra.
Qed.

Lemma SpikeMean_at_least_bias_witness :
  views_shaped unit_rbm /\ length [1] = visibleSize unit_rbm /\
  0 < slabPenalty unit_rbm /\
  (0 < hiddenSize unit_rbm)%nat /\ (0 < length [0])%nat /\
  LogisticFunction_Fn (bias_at unit_rbm 0)
  <= SpikeMean unit_rbm [1] [0] !!! 0%nat.
Proof.
  assert (Hs : views_shaped unit_rbm) by apply Reset_views_shaped.
  assert (H0 : (0 < 1)%nat) by lia.
  assert (Hp : 0 < slabPenalty unit_rbm) by (simpl; lra).
  split; [exact Hs|]. split; [reflexivity|]. split; [exact Hp|].
  split; [exact H0|]. split; [exact H0|].
  exact (SpikeMean_at_least_bias unit_rbm [1] [0] 0 Hs eq_refl Hp H0 H0).
Defined.

Lemma lookup_total_negate (v : list R) (i : nat) :
  negate v !!! i = - v !!! i.
Proof.
  unfold negate. rewrite !list_lookup_total_alt, list_lookup_fmap.
  destruct (v !! i); simpl; [reflexivity|].
  change (inhabitant : R) with 0. lra.
Qed.

Lemma Wt_v_negate (m : RBM) (v : list R) (h p : nat) :
  Wt_v m (negate v) h p = - Wt_v m v h p.
Proof.
  unfold Wt_v.
  replace (- sum_upto (visibleSize m) (fun r => W_at m r p h * v !!! r))
    with (-1 * sum_upto (visibleSize m) (fun r => W_at m r p h * v !!! r))
    by lra.
  rewrite <- sum_upto_scal_l. apply sum_upto_ext. intros r _.
  rewrite lookup_total_negate. lra.
Qed.

(** X14.  For a store whose weight view has the shape [Reset] gives it and
    a visible vector of [V] entries, the free energy of the negated vector
    is the free energy of the vector. *)
Theorem FreeEnergy_even (m : RBM) (visible : list R) :
  views_shaped m -> length visible = visibleSize m ->
  FreeEnergy m (negate visible) = FreeEnergy m visible.
Proof.
  intros Hshape Hv.
  assert (Hv' : length (negate visible) = visibleSize m).
  { unfold negate. rewrite length_fmap. exact Hv. }
  rewrite !FreeEnergy_value by assumption.
  f_equal; [f_equal; f_equal|].
  - unfold sqnorm, negate. rewrite length_fmap.
    apply sum_upto_ext. intros i _.
    fold (negate visible). rewrite lookup_total_negate. lra.
  - apply sum_upto_ext. intros h _. f_equal. f_equal. f_equal.
    unfold sqnorm_Wt_v. apply sum_upto_ext. intros p _.
    rewrite Wt_v_negate. lra.
Qed.

Lemma FreeEnergy_even_witness :
  views_shaped unit_rbm /\ length [1] = visibleSize unit_rbm /\
  FreeEnergy unit_rbm (negate [1]) = FreeEnergy unit_rbm [1].
Proof.
  assert (Hs : views_shaped unit_rbm) by apply Reset_views_shaped.
  split; [exact Hs|]. split; [reflexivity|].
  exact (FreeEnergy_even unit_rbm [1] Hs eq_refl).
Defined.

(** X15.  For a store whose weight view has the shape [Reset] gives it,
    when every spike of the hidden vector is zero the visible mean is the
    zero vector, whatever the slab part holds. *)
Theorem VisibleMean_zero_spike (m : RBM) (hidden : list R) :
  views_shaped m ->
  (forall h, (h < hiddenSize m)%nat -> spike_of hidden h = 0) ->
  length (VisibleMean m hidden) = visibleSize m /\
  (forall r, (r < visibleSize m)%nat -> VisibleMean m hidden !!! r = 0).
Proof.
  intros Hshape Hzero. split; [apply length_VisibleMean; exact Hshape|].
  intros r Hr. rewrite VisibleMean_lookup by assumption.
  rewrite (sum_upto_ext _ _ (fun _ => 0)).
  - rewrite sum_upto_zero. lra.
  - intros h Hh. rewrite Hzero by exact Hh. lra.
Qed.

Lemma VisibleMean_zero_spike_witness :
  views_shaped unit_rbm /\
  (forall h, (h < hiddenSize unit_rbm)%nat -> spike_of [0; 7] h = 0) /\
  VisibleMean unit_rbm [0; 7] !!! 0%nat = 0.
Proof.
  assert (Hs : views_shaped unit_rbm) by apply Reset_views_shaped.
  assert (Hz : forall h, (h < hiddenSize unit_rbm)%nat ->
                 spike_of [0; 7] h = 0).
  { intros h Hh. change (hiddenSize unit_rbm) with 1%nat in Hh.
    destruct h as [|h]; [reflexivity|lia]. }
  split; [exact Hs|]. split; [exact Hz|].
  exact (proj2 (VisibleMean_zero_spike unit_rbm [0; 7] Hs Hz) 0%nat
           (Nat.lt_0_succ 0)).
Defined.

End MeanTheorems.

(** ** Further properties of [Phase] *)

Section PhaseExtras.

Context {G : Type} `{RandomSource G}.

(** The cells of the gradient that [Phase] writes, in terms of the spike
    mean [sm], the spike sample and the slab mean [sl] it computes. *)
Lemma Phase_cells (m : RBM) (input gradient : list R) (w : World G) :
  length input = visibleSize m -> length (spikeMean m) = hiddenSize m ->
  visibleSize m * poolSize m * hiddenSize m + hiddenSize m + 1
    <= length gradient ->
  let sm := SpikeMean m input (spikeMean m) in
  let res := SampleSpike m sm (spikeSamples m) w in
  let sl :=
    SlabMean m input (fst res) (slabMean m)
             (mkView 0 (poolSize m) (hiddenSize m) 1) in
  let g := snd (fst (Phase m input gradient w)) in
  fst (fst (Phase m input gradient w))
  = set_slabMean (set_spikeSamples (set_spikeMean m sm) (fst res)) sl /\
  snd (Phase m input gradient w) = snd res /\
  (forall h r p, h < hiddenSize m -> r < visibleSize m -> p < poolSize m ->
     g !!! (visibleSize m * poolSize m * h + (r + visibleSize m * p))
     = (input !!! r * sl !!! (poolSize m * h + p)%nat * sm !!! h)%R) /\
  (forall h, h < hiddenSize m ->
     g !!! (visibleSize m * poolSize m * hiddenSize m + h) = sm !!! h) /\
  g !!! (visibleSize m * poolSize m * hiddenSize m + hiddenSize m)
  = (-0.5 * sqnorm input)%R.
Proof.
  intros Hv Hsm_len Hg. rewrite Phase_steps. cbv zeta.
  set (sm := SpikeMean m input (spikeMean m)).
  set (res := SampleSpike m sm (spikeSamples m) w).
  set (sl := SlabMean m input (fst res) (slabMean m)
               (mkView 0 (poolSize m) (hiddenSize m) 1)).
  set (VPH := visibleSize m * poolSize m * hiddenSize m) in *.
  cbn [fst snd].
  assert (Hsm_len' : length sm = hiddenSize m).
  { unfold sm. rewrite length_SpikeMean. exact Hsm_len. }
  destruct (Phase_weight_loop m input sl sm gradient Hv)
    as (Hg1_len & Hg1_in & Hg1_out).
  set (g1 := for_upto (hiddenSize m) _ gradient) in *.
  set (vb := mkView (0 + VPH) (hiddenSize m) 1 1).
  set (vp := mkView (0 + VPH + hiddenSize m * 1 * 1) 1 1 1).
  destruct (penalty_grad_value input) as (Hpg_len & Hpg).
  split; [reflexivity|]. split; [reflexivity|]. split; [|split].
  - intros h r p Hh Hr Hp.
    assert (Hlt : visibleSize m * poolSize m * h + (r + visibleSize m * p)
                  < VPH)
      by (apply block_index_lt; [|apply cell_index_lt]; assumption).
    rewrite !assign_frame by (left; simpl; lia).
    apply Hg1_in; try assumption. lia.
  - intros h Hh.
    rewrite assign_frame by (left; simpl; lia).
    change (VPH + h) with (v_off vb + h).
    rewrite assign_lookup;
      [reflexivity | | |]; unfold v_n_elem; simpl; lia.
  - change (VPH + hiddenSize m) with (0 + VPH + hiddenSize m).
    replace (0 + VPH + hiddenSize m) with (v_off vp + 0) by (simpl; lia).
    rewrite assign_lookup; [exact Hpg | | |].
    + rewrite Hpg_len. reflexivity.
    + unfold v_n_elem; simpl; lia.
    + rewrite length_assign. simpl. lia.
Qed.

(** X16.  For a visible vector of [V] entries and a spike-mean member of
    [H] entries, [Phase] overwrites the first [V·P·H + H + 1] elements of
    the gradient buffer: what it leaves there, in the members and in the
    random source does not depend on what the buffer held. *)
Theorem Phase_overwrites
    (m : RBM) (input gradient gradient' : list R) (w : World G) :
  length input = visibleSize m -> length (spikeMean m) = hiddenSize m ->
  visibleSize m * poolSize m * hiddenSize m + hiddenSize m + 1
    <= length gradient ->
  visibleSize m * poolSize m * hiddenSize m + hiddenSize m + 1
    <= length gradient' ->
  fst (fst (Phase m input gradient w))
  = fst (fst (Phase m input gradient' w)) /\
  snd (Phase m input gradient w) = snd (Phase m input gradient' w) /\
  (forall j,
     j < visibleSize m * poolSize m * hiddenSize m + hiddenSize m + 1 ->
     snd (fst (Phase m input gradient w)) !!! j
     = snd (fst (Phase m input gradient' w)) !!! j).
Proof.
  intros Hv Hsm Hg Hg'.
  destruct (Phase_cells m input gradient w Hv Hsm Hg)
    as (Em & Ew & Hw1 & Hb1 & Hp1).
  destruct (Phase_cells m input gradient' w Hv Hsm Hg')
    as (Em' & Ew' & Hw2 & Hb2 & Hp2).
  split; [rewrite Em, Em'; reflexivity|].
  split; [rewrite Ew, Ew'; reflexivity|].
  intros j Hj.
  set (VP := visibleSize m * poolSize m) in *.
  destruct (decide (j < VP * hiddenSize m)) as [Hlt|Hge].
  - destruct (flat_index VP (hiddenSize m) j Hlt) as (Hh & Hi & Ej).
    destruct (flat_index (visibleSize m) (poolSize m) (j mod VP) Hi)
      as (Hp & Hr & Ei).
    rewrite Ej, Ei, (Nat.add_comm (visibleSize m * _) _).
    rewrite Hw1, Hw2 by assumption. reflexivity.
  - destruct (decide (j = VP * hiddenSize m + hiddenSize m)) as [->|Hne].
    + rewrite Hp1, Hp2. reflexivity.
    + replace j with (VP * hiddenSize m + (j - VP * hiddenSize m)) by lia.
      rewrite Hb1, Hb2 by lia. reflexivity.
Qed.

(** X17.  For a store laid out and sized as [Reset] leaves it, a visible
    vector of [V] entries and a gradient buffer of at least
    [V·P·H + H + 1] elements: when the spike that [Phase] samples for
    hidden unit [h] is zero, the whole weight-gradient slice [h] is zero,
    whatever the spike mean of [h] is. *)
Theorem Phase_zero_spike_slice
    (m : RBM) (input gradient : list R) (w : World G) :
  views_shaped m -> members_sized m ->
  length input = visibleSize m ->
  visibleSize m * poolSize m * hiddenSize m + hiddenSize m + 1
    <= length gradient ->
  let '(m', g, _) := Phase m input gradient w in
  forall h, h < hiddenSize m -> spikeSamples m' !!! h = 0%R ->
  forall r p, r < visibleSize m -> p < poolSize m ->
    g !!! (visibleSize m * poolSize m * h + (r + visibleSize m * p)) = 0%R.
Proof.
  intros Hshape (_ & Hsm & _ & Hsl) Hv Hg.
  destruct (Phase_cells m input gradient w Hv Hsm Hg)
    as (Em & _ & Hw & _ & _).
  destruct (Phase m input gradient w) as [[m' g] w'].
  cbn [fst snd] in Em, Hw. subst m'.
  cbn [spikeSamples set_slabMean set_spikeSamples set_spikeMean].
  intros h Hh Hzero r p Hr Hp.
  rewrite Hw by assumption.
  destruct (SlabMean_value m input
              (fst (SampleSpike m (SpikeMean m input (spikeMean m))
                      (spikeSamples m) w))
              (slabMean m) (mkView 0 (poolSize m) (hiddenSize m) 1) h p)
    as (_ & Hz); try assumption; try reflexivity.
  { simpl. rewrite Hsl.
    pose proof (block_index_lt (poolSize m) (hiddenSize m) h p Hh Hp). lia. }
  simpl in Hz. rewrite Hz by exact Hzero. lra.
Qed.

End PhaseExtras.

Section PhaseInstances.

Local Open Scope R_scope.

Lemma Phase_overwrites_witness :
  length [1] = visibleSize unit_rbm /\
  length (spikeMean unit_rbm) = hiddenSize unit_rbm /\
  (visibleSize unit_rbm * poolSize unit_rbm * hiddenSize unit_rbm
   + hiddenSize unit_rbm + 1 <= length [7; 7; 7])%nat /\
  (visibleSize unit_rbm * poolSize unit_rbm * hiddenSize unit_rbm
   + hiddenSize unit_rbm + 1 <= length [8; 9; 10; 11])%nat /\
  snd (fst (Phase unit_rbm [1] [7; 7; 7] (mkWorld [1] []))) !!! 0%nat
  = snd (fst (Phase unit_rbm [1] [8; 9; 10; 11] (mkWorld [1] []))) !!! 0%nat.
Proof.
  assert (H3 : (1 * 1 * 1 + 1 + 1 <= 3)%nat) by lia.
  assert (H4 : (1 * 1 * 1 + 1 + 1 <= 4)%nat) by lia.
  assert (H0 : (0 < 1 * 1 * 1 + 1 + 1)%nat) by lia.
  split; [reflexivity|]. split; [reflexivity|].
  split; [exact H3|]. split; [exact H4|].
  exact (proj2 (proj2 (Phase_overwrites unit_rbm [1] [7; 7; 7]
                         [8; 9; 10; 11] (mkWorld [1] [])
                         eq_refl eq_refl H3 H4)) 0%nat H0).
Defined.

Lemma Phase_zero_spike_slice_witness :
  views_shaped unit_rbm /\ members_sized unit_rbm /\
  length [1] = visibleSize unit_rbm /\
  (visibleSize unit_rbm * poolSize unit_rbm * hiddenSize unit_rbm
   + hiddenSize unit_rbm + 1 <= length [7; 7; 7])%nat /\
  spikeSamples (fst (fst (Phase unit_rbm [1] [7; 7; 7] (mkWorld [0] []))))
    !!! 0%nat = 0 /\
  snd (fst (Phase unit_rbm [1] [7; 7; 7] (mkWorld [0] []))) !!! 0%nat = 0.
Proof.
  assert (Hs : views_shaped unit_rbm) by apply Reset_views_shaped.
  assert (Hm : members_sized unit_rbm) by apply Reset_members_sized.
  assert (H3 : (1 * 1 * 1 + 1 + 1 <= 3)%nat) by lia.
  assert (H0 : (0 < 1)%nat) by lia.
  split; [exact Hs|]. split; [exact Hm|]. split; [reflexivity|].
  split; [exact H3|].
  assert (Hz : spikeSamples
                 (fst (fst (Phase unit_rbm [1] [7; 7; 7] (mkWorld [0] []))))
                 !!! 0%nat = 0) by reflexivity.
  split; [exact Hz|].
  pose proof (Phase_zero_spike_slice unit_rbm [1] [7; 7; 7]
                (mkWorld [0] []) Hs Hm eq_refl H3) as P.
  destruct (Phase unit_rbm [1] [7; 7; 7] (mkWorld [0] [])) as [[m' g] w'].
  exact (P 0%nat H0 Hz 0%nat 0%nat H0 H0).
Defined.

End PhaseInstances.

(** ** Further properties of [SampleVisible] *)

Section SampleVisibleExtras.

Context {G : Type} `{RandomSource G}.

Lemma norm2_nonneg (l : list R) : (0 <= norm2 l)%R.
Proof. unfold norm2. apply sqrt_pos. Qed.

Lemma length_attempts (m : RBM) (n : nat) (output : list R) (w : World G) :
  length (fst (attempts m n output w)) = length output.
Proof.
  induction n as [|n IH]; [reflexivity|]. cbn [attempts].
  destruct (attempts m n output w) as [o wn]. cbn [fst] in IH.
  rewrite (proj1 (draw_visible_spec m o wn)). exact IH.
Qed.

(** One call of [SampleVisible], as a number of attempts. *)
Lemma SampleVisible_run (m : RBM) (input output : list R) (w : World G) :
  let '(m', out, w') := SampleVisible m input output w in
  m' = set_visibleMean m (VisibleMean m input) /\
  exists (n : nat) (wn : World G),
    1 <= n <= 10 /\
    attempts m' n (set_size (visibleSize m) output)
             (emit CallVisibleMean w) = (out, wn) /\
    (((norm2 out < radius m)%R /\ w' = wn) \/
     (n = 10 /\ ~ (norm2 out < radius m)%R /\
      w' = emit (LogWarn (norm2 out)) wn)).
Proof.
  unfold SampleVisible. cbv zeta.
  set (m1 := set_visibleMean m (VisibleMean m input)).
  set (start := emit CallVisibleMean w).
  change (visibleSize m1) with (visibleSize m).
  set (out0 := set_size (visibleSize m) output).
  pose proof (SampleVisible_loop_spec m1 numMaxTrials 0 out0 start
                ltac:(unfold numMaxTrials; lia)) as L.
  destruct (SampleVisible_loop m1 numMaxTrials 0 out0 start)
    as [[k out] w1].
  destruct L as (n & Hn & Hatt & _ & Hend).
  change (radius m1) with (radius m) in Hend.
  unfold numMaxTrials in *.
  destruct (decide (k = 10)) as [Hk|Hk].
  - destruct Hend as [(_ & Hk')|(Hfail & Hnt & _)]; [lia|].
    split; [reflexivity|]. exists n, w1.
    split; [exact Hn|]. split; [exact Hatt|].
    right. split; [exact Hnt|]. split; [exact Hfail|reflexivity].
  - destruct Hend as [(Hok & _)|(_ & _ & Hk')]; [|lia].
    split; [reflexivity|]. exists n, w1.
    split; [exact Hn|]. split; [exact Hatt|].
    left. split; [exact Hok|reflexivity].
Qed.

(** X18.  With a radius that is zero or negative no draw is ever accepted:
    [SampleVisible] makes all ten attempts, logs the warning, and leaves in
    the trace the call to [VisibleMean], the ten rounds of draws and the
    warning, in this order. *)
Theorem SampleVisible_nonpositive_radius
    (m : RBM) (input output : list R) (w : World G) :
  (radius m <= 0)%R ->
  let '(m', out, w') := SampleVisible m input output w in
  trace w'
  = trace w ++ [CallVisibleMean]
    ++ concat (replicate 10 (attempt_calls m'))
    ++ [LogWarn (norm2 out)].
Proof.
  intros Hrad. pose proof (SampleVisible_run m input output w) as S.
  destruct (SampleVisible m input output w) as [[m' out] w'].
  destruct S as (_ & n & wn & Hn & Hatt & Hend).
  pose proof (norm2_nonneg out) as Hpos.
  destruct Hend as [(Hok & _)|(-> & _ & ->)]; [lra|].
  pose proof (attempts_trace m' 10 (set_size (visibleSize m) output)
                (emit CallVisibleMean w)) as T.
  rewrite Hatt in T. cbn [snd] in T.
  unfold emit at 1. cbn [trace]. rewrite T.
  unfold emit. cbn [trace]. rewrite <- !app_assoc. reflexivity.
Qed.

(** X19.  For a store whose weight view has the shape [Reset] gives it,
    [SampleVisible] returns [V] entries whatever the output buffer held,
    and leaves [V] entries in [visibleMean]. *)
Theorem SampleVisible_sizes
    (m : RBM) (input output : list R) (w : World G) :
  views_shaped m ->
  let '(m', out, w') := SampleVisible m input output w in
  length out = visibleSize m /\ length (visibleMean m') = visibleSize m.
Proof.
  intros Hshape. pose proof (SampleVisible_run m input output w) as S.
  destruct (SampleVisible m input output w) as [[m' out] w'].
  destruct S as (-> & n & wn & _ & Hatt & _).
  split.
  - pose proof (length_attempts
                  (set_visibleMean m (VisibleMean m input)) n
                  (set_size (visibleSize m) output)
                  (emit CallVisibleMean w)) as L.
    rewrite Hatt in L. cbn [fst] in L. rewrite L. apply length_set_size.
  - cbn [visibleMean set_visibleMean]. apply length_VisibleMean.
    exact Hshape.
Qed.

End SampleVisibleExtras.

Section SampleVisibleInstances.

Local Open Scope R_scope.

(** A store with one unit of each kind and radius 0. *)
Lemma SampleVisible_nonpositive_radius_witness :
  let m := Reset (blank 1 1 1 1 0 unit_init 1) in
  radius m <= 0 /\
  count_events is_LogWarn
    (trace (snd (SampleVisible m [1; 1] [] (mkWorld [] [])))) = 1%nat.
Proof.
  intros m.
  assert (Hrad : radius m <= 0) by (simpl; lra).
  split; [exact Hrad|].
  pose proof (SampleVisible_nonpositive_radius m [1; 1] []
                (mkWorld ([] : list R) []) Hrad) as S.
  destruct (SampleVisible m [1; 1] [] (mkWorld [] [])) as [[m' out] w'].
  cbn [snd]. rewrite S. cbn [trace].
  rewrite !count_events_app.
  rewrite (proj2 (count_attempt_calls m' 10)). reflexivity.
Defined.

Lemma SampleVisible_sizes_witness :
  views_shaped unit_rbm /\
  length (snd (fst (SampleVisible unit_rbm [1; 1] [9; 9; 9]
                      (mkWorld [0] [])))) = 1%nat.
Proof.
  assert (Hs : views_shaped unit_rbm) by apply Reset_views_shaped.
  split; [exact Hs|].
  pose proof (SampleVisible_sizes unit_rbm [1; 1] [9; 9; 9]
                (mkWorld [0] []) Hs) as S.
  destruct (SampleVisible unit_rbm [1; 1] [9; 9; 9] (mkWorld [0] []))
    as [[m' out] w'].
  exact (proj1 S).
Defined.

End SampleVisibleInstances.

(** ** The output buffers are overwritten *)

Lemma list_eq_total (l k : list R) (n : nat) :
  length l = n -> length k = n ->
  (forall i, i < n -> l !!! i = k !!! i) -> l = k.
Proof.
  intros Hl Hk Heq. apply (list_eq_same_length l k n); try assumption.
  intros i x y Hi Hx Hy.
  rewrite <- (list_lookup_total_correct _ _ _ Hx).
  rewrite <- (list_lookup_total_correct _ _ _ Hy).
  apply Heq. exact Hi.
Qed.

Section Overwritten.

Context {G : Type} `{RandomSource G}.

Lemma SampleSpike_ext (m : RBM) (sm sm' spike : list R) (w : World G) :
  (forall i, i < hiddenSize m -> sm !!! i = sm' !!! i) ->
  SampleSpike m sm spike w = SampleSpike m sm' spike w.
Proof.
  intros Hsm. unfold SampleSpike. apply for_upto_ext.
  intros i [sp w0] Hi. rewrite Hsm by exact Hi. reflexivity.
Qed.

Lemma World_eq (w w' : World G) :
  gen w = gen w' -> trace w = trace w' -> w = w'.
Proof. destruct w, w'. simpl. intros -> ->. reflexivity. Qed.

(** X20.  For a store whose weight view has the shape [Reset] gives it,
    what [HiddenMean] returns and leaves in the store and in the random
    source does not depend on the content or the size of the output buffer
    it is given: every entry of the output is written. *)
Theorem HiddenMean_output_overwritten
    (m : RBM) (input output output' : list R) (w : World G) :
  views_shaped m ->
  HiddenMean m input output w = HiddenMean m input output' w.
Proof.
  intros Hshape. pose proof Hshape as (_ & Hc & _).
  rewrite !HiddenMean_steps. cbv zeta.
  set (n := hiddenSize m + poolSize m * hiddenSize m).
  set (slab := mkView (0 + hiddenSize m) (poolSize m) (hiddenSize m) 1).
  set (o1 := SpikeMean m input (set_size n output)).
  set (o1' := SpikeMean m input (set_size n output')).
  assert (Hl1 : length o1 = n)
    by (unfold o1; rewrite length_SpikeMean; apply length_set_size).
  assert (Hl1' : length o1' = n)
    by (unfold o1'; rewrite length_SpikeMean; apply length_set_size).
  assert (Hsm : forall i, i < hiddenSize m -> o1 !!! i = o1' !!! i).
  { intros i Hi. unfold o1, o1'.
    rewrite !SpikeMean_lookup by (rewrite ?length_set_size; unfold n; lia).
    reflexivity. }
  rewrite (SampleSpike_ext m o1 o1') by exact Hsm.
  set (res := SampleSpike m o1' (spikeSamples m) w).
  f_equal. f_equal.
  destruct (SlabMean_blocks m input (fst res) o1 slab)
    as (Hl2 & Hin2 & Hout2); [simpl; lia|].
  destruct (SlabMean_blocks m input (fst res) o1' slab)
    as (Hl2' & Hin2' & Hout2'); [simpl; lia|].
  cbn [set_spikeSamples parameter weightCube hiddenSize slabPenalty
       spikeSamples] in *.
  apply (list_eq_total _ _ n); [lia | lia |].
  intros j Hj. destruct (decide (j < hiddenSize m)) as [Hlt|Hge].
  - rewrite Hout2, Hout2' by (left; simpl; lia). apply Hsm. exact Hlt.
  - assert (Hk : j - hiddenSize m < poolSize m * hiddenSize m)
      by (unfold n in Hj; lia).
    destruct (flat_index _ _ _ Hk) as (Hh & Hp & Ek).
    replace j with (v_off slab + v_rows slab * ((j - hiddenSize m) / poolSize m)
                    + (j - hiddenSize m) mod poolSize m)
      by (simpl; lia).
    rewrite Hin2, Hin2' by (simpl; lia). reflexivity.
Qed.

(** X21.  For a store whose weight view has the shape [Reset] gives it and
    a visible vector of [V] entries, what [SampleHidden] returns and leaves
    in the random source does not depend on the content or the size of the
    output buffer it is given. *)
Theorem SampleHidden_output_overwritten
    (m : RBM) (input output output' : list R) (w : World G) :
  views_shaped m -> length input = visibleSize m ->
  SampleHidden m input output w = SampleHidden m input output' w.
Proof.
  intros Hshape Hv.
  pose proof (SampleHidden_spec m input output w Hshape Hv) as S.
  pose proof (SampleHidden_spec m input output' w Hshape Hv) as S'.
  destruct (SampleHidden m input output w) as [out w1].
  destruct (SampleHidden m input output' w) as [out' w1'].
  cbv zeta in S, S'.
  destruct S as (Hl & Hsp & Hsl & Hg & Ht).
  destruct S' as (Hl' & Hsp' & Hsl' & Hg' & Ht').
  f_equal.
  - apply (list_eq_total _ _ _ Hl Hl').
    intros j Hj. destruct (decide (j < hiddenSize m)) as [Hlt|Hge].
    + rewrite Hsp, Hsp' by exact Hlt. reflexivity.
    + replace j with (hiddenSize m + (j - hiddenSize m)) by lia.
      rewrite Hsl, Hsl' by lia. reflexivity.
  - apply World_eq; congruence.
Qed.

End Overwritten.

Lemma HiddenMean_output_overwritten_witness :
  views_shaped unit_rbm /\
  HiddenMean unit_rbm [1%R] [] (mkWorld [1%R] [])
  = HiddenMean unit_rbm [1%R] [4%R; 5%R; 6%R] (mkWorld [1%R] []).
Proof.
  assert (Hs : views_shaped unit_rbm) by apply Reset_views_shaped.
  split; [exact Hs|].
  exact (HiddenMean_output_overwritten unit_rbm [1%R] [] [4%R; 5%R; 6%R]
           (mkWorld [1%R] []) Hs).
Defined.

Lemma SampleHidden_output_overwritten_witness :
  views_shaped unit_rbm /\ length [1%R] = visibleSize unit_rbm /\
  SampleHidden unit_rbm [1%R] [] (mkWorld [1%R; 3%R] [])
  = SampleHidden unit_rbm [1%R] [4%R; 5%R; 6%R] (mkWorld [1%R; 3%R] []).
Proof.
  assert (Hs : views_shaped unit_rbm) by apply Reset_views_shaped.
  split; [exact Hs|]. split; [reflexivity|].
  exact (SampleHidden_output_overwritten unit_rbm [1%R] []
           [4%R; 5%R; 6%R] (mkWorld [1%R; 3%R] []) Hs eq_refl).
Defined.

(** With two visible units the gradient buffers that [Reset] allocates hold
    five elements, four of which [Phase] writes. *)
Lemma Reset_prepares_witness :
  let m := blank 2 1 1 1%R 1%R keep_init 2 in
  1 <= visibleSize m /\
  visibleSize (Reset m) * poolSize (Reset m) * hiddenSize (Reset m)
  + hiddenSize (Reset m) + 1 <= length (positiveGradient (Reset m)).
Proof.
  intros m. assert (HV : 1 <= 2) by lia.
  split; [exact HV|].
  exact (proj1 (proj2 (proj2 (proj2 (Reset_prepares m))) HV)).
Defined.

(** ** The draws of [SampleVisible] *)

Section VisibleDraws.

Context {G : Type} `{RandomSource G}.

Lemma normal_draws_plus (mean : nat -> R) (var : R) (a b : nat) (g : G) :
  normal_draws mean var (a + b) g
  = let (xs, g') := normal_draws mean var a g in
    let (ys, g'') := normal_draws (fun k => mean (a + k)) var b g' in
    (xs ++ ys, g'').
Proof.
  induction b as [|b IH].
  - rewrite Nat.add_0_r. cbn [normal_draws].
    destruct (normal_draws mean var a g) as [xs g'].
    rewrite app_nil_r. reflexivity.
  - rewrite Nat.add_succ_r. cbn [normal_draws]. rewrite IH.
    destruct (normal_draws mean var a g) as [xs g'].
    destruct (normal_draws (fun k => mean (a + k)) var b g') as [ys g''].
    destruct (draw_normal (mean (a + b)) var g'') as [x g3].
    rewrite app_assoc. reflexivity.
Qed.

Lemma round_spec (V n j : nat) (drawn : list R) :
  length drawn = n * V -> 1 <= j <= n ->
  length (round V drawn j) = V /\
  (forall i, i < V -> round V drawn j !!! i = drawn !!! ((j - 1) * V + i)).
Proof.
  intros Hlen Hj. unfold round.
  assert (Hle : (j - 1) * V + V <= n * V) by nia.
  split.
  - rewrite length_take, length_drop. lia.
  - intros i Hi. rewrite lookup_total_take_lt by exact Hi.
    apply lookup_total_drop.
Qed.

(** One sampling attempt writes [V] normal draws, draw [i] with mean
    [visibleMean(i)], over an output of [V] entries. *)
Lemma draw_visible_draws (m : RBM) (output : list R) (w : World G) :
  length output = visibleSize m ->
  let drawn :=
    normal_draws (fun i => visibleMean m !!! i) (1 / alpha m)%R
                 (visibleSize m) (gen w) in
  fst (draw_visible m output w) = fst drawn /\
  gen (snd (draw_visible m output w)) = snd drawn.
Proof.
  intros Hlen. cbv zeta. unfold draw_visible.
  replace (1.0 / vget (parameter m) (visiblePenalty m) 0)%R
    with (1 / alpha m)%R by (unfold alpha, vget; lra).
  destruct (normal_loop (visibleSize m) 0
              (fun i => visibleMean m !!! i) (1 / alpha m)%R output w)
    as (Hl & Hin & _ & Hgen & _).
  split; [|exact Hgen].
  apply (list_eq_total _ _ (visibleSize m)).
  - exact (eq_trans Hl Hlen).
  - apply length_normal_draws.
  - intros i Hi. refine (Hin i Hi _). simpl. lia.
Qed.

(** [n] attempts in a row write, one after the other, the [n] rounds of
    [n·V] normal draws. *)
Lemma attempts_rounds (m : RBM) (n : nat) (output : list R) (w : World G) :
  length output = visibleSize m ->
  let V := visibleSize m in
  let drawn :=
    normal_draws (fun k => visibleMean m !!! (k mod V)) (1 / alpha m)%R
                 (n * V) (gen w) in
  gen (snd (attempts m n output w)) = snd drawn /\
  (forall j, 1 <= j <= n ->
     fst (attempts m j output w) = round V (fst drawn) j).
Proof.
  intros Hlen V. subst V. set (V := visibleSize m) in *.
  induction n as [|n IH]; cbv zeta.
  - split; [reflexivity|]. intros j Hj. lia.
  - cbv zeta in IH. destruct IH as (IHgen & IHrounds).
    replace (S n * V) with (n * V + V) by lia.
    rewrite normal_draws_plus.
    pose proof (length_normal_draws
                  (fun k => visibleMean m !!! (k mod V)) (1 / alpha m)%R
                  (n * V) (gen w)) as Hxs.
    destruct (normal_draws (fun k => visibleMean m !!! (k mod V))
                (1 / alpha m)%R (n * V) (gen w)) as [xs g'].
    cbn [fst snd] in IHgen, IHrounds, Hxs.
    rewrite (normal_draws_ext _ (fun i => visibleMean m !!! i)); cycle 1.
    { intros k Hk. f_equal.
      rewrite Nat.add_comm, Nat.Div0.mod_add. apply Nat.mod_small. exact Hk. }
    assert (Hlen_n : length (fst (attempts m n output w)) = V).
    { rewrite length_attempts. exact Hlen. }
    cbn [attempts].
    destruct (attempts m n output w) as [o wn] eqn:Eatt.
    cbn [fst snd] in IHgen, Hlen_n.
    destruct (draw_visible_draws m o wn Hlen_n) as (Hfst & Hgen).
    rewrite IHgen in Hfst, Hgen. fold V in Hfst, Hgen.
    pose proof (length_normal_draws (fun i => visibleMean m !!! i)
                  (1 / alpha m)%R V g') as Hys.
    destruct (normal_draws (fun i => visibleMean m !!! i)
                (1 / alpha m)%R V g') as [ys g''].
    cbn [fst snd] in Hfst, Hgen, Hys |- *.
    split; [exact Hgen|].
    intros j Hj.
    assert (Hall : length (xs ++ ys) = S n * V)
      by (rewrite length_app; lia).
    destruct (round_spec V (S n) j (xs ++ ys) Hall Hj) as (Hrl & Hrv).
    destruct (decide (j = S n)) as [->|Hne].
    + cbn [attempts]. rewrite Eatt, Hfst.
      apply (list_eq_total _ _ V); [exact Hys | exact Hrl |].
      intros i Hi. rewrite Hrv by exact Hi.
      rewrite lookup_total_app_r by lia. f_equal. lia.
    + rewrite IHrounds by lia.
      destruct (round_spec V n j xs Hxs ltac:(lia)) as (Hrl' & Hrv').
      apply (list_eq_total _ _ V); [exact Hrl' | exact Hrl |].
      intros i Hi. rewrite Hrv, Hrv' by exact Hi.
      rewrite lookup_total_app_l by nia. reflexivity.
Qed.

End VisibleDraws.

(** C2.  [SampleVisible] stores [VisibleMean(input)], computed on the store
    as it was on entry, in [visibleMean] and changes no other member.  It
    then makes [n] sampling attempts, 1 <= n <= 10.  Together the attempts
    consume exactly the [n·V] normal draws that the generator gives from its
    state on entry, draw [k] with mean [visibleMean(k mod V)] and second
    argument [1/α]: attempt [j] is round [j] of these draws, the generator
    is left in the state after the last of them, and the output is round [n],
    the last one drawn.  Every round before the last has a norm that is not
    below [radius]; and either the norm of the last round is below [radius]
    and nothing is logged, or [n] is 10, the norm of the last round is not
    below [radius] and one warning, carrying that norm, is logged.  The call
    of [VisibleMean] is recorded once, before the first draw. *)
Theorem SampleVisible_attempts
    (G : Type) (RS : RandomSource G)
    (m : RBM) (input output : list R) (w : World G) :
  let '(m', out, w') := SampleVisible m input output w in
  let V := visibleSize m in
  m' = set_visibleMean m (VisibleMean m input) /\
  count_events is_CallVisibleMean (trace w')
  = count_events is_CallVisibleMean (trace w) + 1 /\
  exists n : nat,
    1 <= n <= 10 /\
    let drawn :=
      normal_draws (fun k => VisibleMean m input !!! (k mod V))
                   (1 / alpha m)%R (n * V) (gen w) in
    length out = V /\
    out = round V (fst drawn) n /\
    gen w' = snd drawn /\
    (forall j, 1 <= j < n ->
       ~ (norm2 (round V (fst drawn) j) < radius m)%R) /\
    (((norm2 out < radius m)%R /\
      trace w'
      = trace w ++ [CallVisibleMean]
        ++ concat (replicate n (attempt_calls m')) /\
      count_events is_LogWarn (trace w') = count_events is_LogWarn (trace w))
     \/
     (n = 10 /\ ~ (norm2 out < radius m)%R /\
      trace w'
      = trace w ++ [CallVisibleMean]
        ++ concat (replicate 10 (attempt_calls m'))
        ++ [LogWarn (norm2 out)] /\
      count_events is_LogWarn (trace w')
      = count_events is_LogWarn (trace w) + 1)).
Proof.
  unfold SampleVisible. cbv zeta.
  set (m1 := set_visibleMean m (VisibleMean m input)).
  set (start := emit CallVisibleMean w).
  change (visibleSize m1) with (visibleSize m).
  set (out0 := set_size (visibleSize m) output).
  pose proof (SampleVisible_loop_spec m1 numMaxTrials 0 out0 start
                ltac:(unfold numMaxTrials; lia)) as L.
  destruct (SampleVisible_loop m1 numMaxTrials 0 out0 start)
    as [[k out] w1].
  destruct L as (n & Hn & Hatt & Hbefore & Hend).
  change (radius m1) with (radius m) in Hbefore, Hend.
  assert (Hlen0 : length out0 = visibleSize m1) by apply length_set_size.
  destruct (attempts_rounds m1 n out0 start Hlen0) as (Hgen & Hrounds).
  change (visibleSize m1) with (visibleSize m) in Hgen, Hrounds.
  change (visibleMean m1) with (VisibleMean m input) in Hgen, Hrounds.
  change (alpha m1) with (alpha m) in Hgen, Hrounds.
  change (gen start) with (gen w) in Hgen, Hrounds.
  rewrite Hatt in Hgen. cbn [snd] in Hgen.
  assert (Hout : out = round (visibleSize m)
                   (fst (normal_draws
                           (fun k => VisibleMean m input
                                       !!! (k mod visibleSize m))
                           (1 / alpha m)%R (n * visibleSize m) (gen w))) n).
  { rewrite <- (Hrounds n) by lia. rewrite Hatt. reflexivity. }
  assert (Hlen : length out = visibleSize m).
  { pose proof (length_attempts m1 n out0 start) as La.
    rewrite Hatt in La. cbn [fst] in La. rewrite La. exact Hlen0. }
  assert (Hbefore' : forall j, 1 <= j < n ->
            ~ (norm2 (round (visibleSize m)
                 (fst (normal_draws
                         (fun k => VisibleMean m input
                                     !!! (k mod visibleSize m))
                         (1 / alpha m)%R (n * visibleSize m) (gen w))) j)
               < radius m)%R).
  { intros j Hj. rewrite <- (Hrounds j) by lia. apply Hbefore. exact Hj. }
  assert (Htr : trace w1
                = trace w ++ [CallVisibleMean]
                  ++ concat (replicate n (attempt_calls m1))).
  { pose proof (attempts_trace m1 n out0 start) as T.
    rewrite Hatt in T. cbn [snd] in T. rewrite T.
    unfold start, emit; cbn [trace]. rewrite <- app_assoc. reflexivity. }
  destruct (count_attempt_calls m1 n) as (Hcv & Hcw).
  assert (Hcount_v : count_events is_CallVisibleMean (trace w1)
                     = count_events is_CallVisibleMean (trace w) + 1).
  { rewrite Htr, !count_events_app, Hcv. cbn. lia. }
  assert (Hcount_w : count_events is_LogWarn (trace w1)
                     = count_events is_LogWarn (trace w)).
  { rewrite Htr, !count_events_app, Hcw. cbn. lia. }
  unfold numMaxTrials in *.
  destruct (decide (k = 10)) as [Hk|Hk].
  - destruct Hend as [(_ & Hk')|(Hfail & Hnt & _)]; [lia|].
    split; [reflexivity|]. split.
    + unfold emit; cbn [trace]. rewrite count_events_app, Hcount_v.
      cbn. lia.
    + exists n. split; [exact Hn|]. split; [exact Hlen|].
      split; [exact Hout|]. split; [exact Hgen|]. split; [exact Hbefore'|].
      right. split; [exact Hnt|]. split; [exact Hfail|]. split.
      * unfold emit; cbn [trace]. rewrite Htr, Hnt, <- !app_assoc.
        reflexivity.
      * unfold emit; cbn [trace]. rewrite count_events_app, Hcount_w.
        cbn. lia.
  - destruct Hend as [(Hok & _)|(_ & _ & Hk')]; [|lia].
    split; [reflexivity|]. split; [exact Hcount_v|].
    exists n. split; [exact Hn|]. split; [exact Hlen|].
    split; [exact Hout|]. split; [exact Hgen|]. split; [exact Hbefore'|].
    left. split; [exact Hok|]. split; [exact Htr|exact Hcount_w].
Qed.
